(** * Beltrami framework primitives (dipy/reconst/beltrami.py)

    A shallow embedding of the four functions of the module:
    [x_manifold], [d_manifold] (tensor components <-> Iwasawa coordinates)
    and [forward_diff], [backward_diff] (finite differences on a 3D volume).

    Numbers.  The code computes on float64.  The embedding computes in exact
    rational arithmetic ([Qc], canonical rationals with Leibniz equality);
    rounding is therefore outside the model.  A value is a [num]: either a
    rational, or [None] when the exact value does not exist because a
    division by zero was met on the way (numpy does not raise there, it
    stores [inf] or [nan] and goes on).  The module [Binary64] reads the
    same code on IEEE 754 binary64, for the statements that rounding
    decides.

    Arrays.  A (..., 6) array is a list of voxels (the leading dimensions
    flattened in C order, which is also the order boolean-mask indexing
    uses), each voxel a row of six channels.  A mask is a boolean array
    over the same leading dimensions, as the docstring asks, flattened the
    same way; a mask of fewer dimensions, which numpy applies to the
    leading axes only, is outside the model.  A 3D volume is a shape and an
    element function.

    Errors.  Python exceptions are the [Err] results of an error monad. *)

From stdpp Require Import base list gmap numbers.
From Stdlib Require Import QArith Qcanon.
From Stdlib Require Floats.

Local Open Scope Qc_scope.

(** ** Numbers *)

Definition num : Type := option Qc.

Definition rat (n : Z) (d : positive) : Qc := Q2Qc (n # d).
Definition int (n : Z) : num := Some (Qc_of_Z n).
Definition frac (n : Z) (d : positive) : num := Some (rat n d).

Definition nzero : num := Some 0.

Definition nadd (a b : num) : num :=
  match a, b with
  | Some x, Some y => Some (x + y)
  | _, _ => None
  end.

Definition nsub (a b : num) : num :=
  match a, b with
  | Some x, Some y => Some (x - y)
  | _, _ => None
  end.

Definition nmul (a b : num) : num :=
  match a, b with
  | Some x, Some y => Some (x * y)
  | _, _ => None
  end.

(** True division ([from __future__ import division]); a zero divisor gives
    no exact value. *)
Definition ndiv (a b : num) : num :=
  match a, b with
  | Some x, Some y => if decide (y = 0) then None else Some (x / y)
  | _, _ => None
  end.

(** [a ** 2] *)
Definition nsq (a : num) : num :=
  match a with
  | Some x => Some (x ^ 2)
  | None => None
  end.

Definition num_pos (a : num) : Prop := exists q : Qc, a = Some q /\ 0 < q.
Definition num_nonzero (a : num) : Prop := exists q : Qc, a = Some q /\ q <> 0.
Definition num_finite (a : num) : Prop := exists q : Qc, a = Some q.

(** ** Exceptions *)

Inductive pyerr : Type :=
  | IndexError          (* an index or a boolean mask does not fit the array *)
  | ValueError          (* operands or values of incompatible shapes *)
  | TypeError           (* an operand of the wrong kind *)
  | UnboundLocalError.  (* a local variable read before any assignment *)

Inductive result (A : Type) : Type :=
  | Ok (a : A)
  | Err (e : pyerr).
Arguments Ok {A} a.
Arguments Err {A} e.

Definition rbind {A B : Type} (m : result A) (k : A -> result B) : result B :=
  match m with
  | Ok a => k a
  | Err e => Err e
  end.

Notation "'do' x <- m ; k" := (rbind m (fun x => k))
  (at level 10, x name, m at level 100, k at level 200,
   format "'[v' 'do'  x  <-  m ; '/' k ']'").

Fixpoint rmapM {A B : Type} (f : A -> result B) (l : list A) : result (list B) :=
  match l with
  | [] => Ok []
  | a :: l' => do b <- f a; do bs <- rmapM f l'; Ok (b :: bs)
  end.

Global Instance pyerr_eq_dec : EqDecision pyerr.
Proof. solve_decision. Defined.

Global Instance result_eq_dec {A : Type} `{EqDecision A} : EqDecision (result A).
Proof. solve_decision. Defined.

(** ** ManifoldMap: arrays of shape (N, 6) *)

Inductive chan : Type := C0 | C1 | C2 | C3 | C4 | C5.

Record row : Type := Row { r0 : num; r1 : num; r2 : num; r3 : num; r4 : num; r5 : num }.

Global Instance row_eq_dec : EqDecision row.
Proof. solve_decision. Defined.

Definition getc (c : chan) (r : row) : num :=
  match c with
  | C0 => r0 r | C1 => r1 r | C2 => r2 r | C3 => r3 r | C4 => r4 r | C5 => r5 r
  end.

Definition setc (c : chan) (v : num) (r : row) : row :=
  match c with
  | C0 => Row v (r1 r) (r2 r) (r3 r) (r4 r) (r5 r)
  | C1 => Row (r0 r) v (r2 r) (r3 r) (r4 r) (r5 r)
  | C2 => Row (r0 r) (r1 r) v (r3 r) (r4 r) (r5 r)
  | C3 => Row (r0 r) (r1 r) (r2 r) v (r4 r) (r5 r)
  | C4 => Row (r0 r) (r1 r) (r2 r) (r3 r) v (r5 r)
  | C5 => Row (r0 r) (r1 r) (r2 r) (r3 r) (r4 r) v
  end.

Definition zero_row : row := Row nzero nzero nzero nzero nzero nzero.

Abbreviation field := (list row) (only parsing).
Abbreviation mask_t := (list bool) (only parsing).

(** [np.zeros(A.shape)] *)
Definition np_zeros (n : nat) : field := replicate n zero_row.

(** The voxels a boolean mask selects, in order. *)
Fixpoint select {A : Type} (mask : mask_t) (l : list A) : list A :=
  match mask, l with
  | m :: mask', x :: l' => if m then x :: select mask' l' else select mask' l'
  | _, _ => []
  end.

Fixpoint count_true (mask : mask_t) : nat :=
  match mask with
  | [] => 0
  | m :: mask' => if m then S (count_true mask') else count_true mask'
  end.

(** [A[mask, c]]: a new 1D array with channel [c] of the selected voxels.
    numpy raises IndexError when the mask does not have the array's leading
    shape. *)
Definition getmask (A : field) (mask : mask_t) (c : chan) : result (list num) :=
  if decide (length mask = length A)
  then Ok (getc c <$> select mask A)
  else Err IndexError.

(** Writes [vals], in order, into channel [c] of the selected voxels. *)
Fixpoint scatter (c : chan) (mask : mask_t) (vals : list num) (X : field) : field :=
  match mask, X with
  | m :: mask', x :: X' =>
      if m then
        match vals with
        | v :: vals' => setc c v x :: scatter c mask' vals' X'
        | [] => x :: X'
        end
      else x :: scatter c mask' vals X'
  | _, _ => X
  end.

(** [X[mask, c] = vals].  The value array must have one entry per selected
    voxel (the module only ever assigns such arrays, so numpy's broadcasting
    of a shorter value array is not modelled). *)
Definition setmask (X : field) (mask : mask_t) (c : chan) (vals : list num)
  : result field :=
  if decide (length mask = length X) then
    if decide (length vals = count_true mask)
    then Ok (scatter c mask vals X)
    else Err ValueError
  else Err IndexError.

(** Elementwise arithmetic on 1D arrays.  Every operand in this module is
    read through the same mask, so the operands have the same length. *)
Definition vadd : list num -> list num -> list num := zip_with nadd.
Definition vsub : list num -> list num -> list num := zip_with nsub.
Definition vmul : list num -> list num -> list num := zip_with nmul.
Definition vdiv : list num -> list num -> list num := zip_with ndiv.
Definition vsq : list num -> list num := fmap nsq.

Definition x_manifold (D : field) (mask : mask_t) : result field :=
  do Dxx <- getmask D mask C0;
  do Dxy <- getmask D mask C1;
  do Dyy <- getmask D mask C2;
  do Dxz <- getmask D mask C3;
  do Dyz <- getmask D mask C4;
  do Dzz <- getmask D mask C5;
  let X := np_zeros (length D) in
  do X <- setmask X mask C0 Dxx;
  do X <- setmask X mask C3 (vdiv Dxy Dxx);
  do X <- setmask X mask C4 (vdiv Dxz Dxx);
  do a0 <- getmask X mask C0;
  do a3 <- getmask X mask C3;
  do X <- setmask X mask C1 (vsub Dyy (vmul a0 (vsq a3)));
  do b0 <- getmask X mask C0;
  do b3 <- getmask X mask C3;
  do b4 <- getmask X mask C4;
  do b1 <- getmask X mask C1;
  do X <- setmask X mask C5 (vdiv (vsub Dyz (vmul (vmul b0 b3) b4)) b1);
  do c0 <- getmask X mask C0;
  do c4 <- getmask X mask C4;
  do c1 <- getmask X mask C1;
  do c5 <- getmask X mask C5;
  do X <- setmask X mask C2
            (vsub (vsub Dzz (vmul c0 (vsq c4))) (vmul c1 (vsq c5)));
  Ok X.

Definition d_manifold (X : field) (mask : mask_t) : result field :=
  do X1 <- getmask X mask C0;
  do X2 <- getmask X mask C1;
  do X3 <- getmask X mask C2;
  do X4 <- getmask X mask C3;
  do X5 <- getmask X mask C4;
  do X6 <- getmask X mask C5;
  let D := np_zeros (length X) in
  do D <- setmask D mask C0 X1;
  do D <- setmask D mask C1 (vmul X1 X4);
  do D <- setmask D mask C2 (vadd X2 (vmul X1 (vsq X4)));
  do D <- setmask D mask C3 (vmul X1 X5);
  do D <- setmask D mask C4 (vadd (vmul (vmul X1 X4) X5) (vmul X2 X6));
  do D <- setmask D mask C5
            (vadd (vadd X3 (vmul X1 (vsq X5))) (vmul X2 (vsq X6)));
  Ok D.

(** ** FiniteDifference: 3D volumes *)

Record ndarray3 : Type := Arr3 { shape : nat * nat * nat; elem : nat -> nat -> nat -> num }.

Inductive axis : Type := AX0 | AX1 | AX2.

(** Extent of a shape along an axis. *)
Definition extent (ax : axis) (s : nat * nat * nat) : nat :=
  match ax, s with
  | AX0, (nx, _, _) => nx
  | AX1, (_, ny, _) => ny
  | AX2, (_, _, nz) => nz
  end.

Definition with_extent (ax : axis) (n : nat) (s : nat * nat * nat) : nat * nat * nat :=
  match ax, s with
  | AX0, (_, ny, nz) => (n, ny, nz)
  | AX1, (nx, _, nz) => (nx, n, nz)
  | AX2, (nx, ny, _) => (nx, ny, n)
  end.

(** Python indexing of a sequence of length [n] by an integer: negative
    indices count from the end, anything else out of range raises. *)
Definition py_index (n : nat) (i : Z) : result nat :=
  if decide (0 <= i < Z.of_nat n)%Z then Ok (Z.to_nat i)
  else if decide (- Z.of_nat n <= i < 0)%Z then Ok (Z.to_nat (Z.of_nat n + i))
  else Err IndexError.

Definition axis_of_nat (i : nat) : axis :=
  match i with
  | 0%nat => AX0
  | 1%nat => AX1
  | _ => AX2
  end.

(** [Xi.shape[dim]] on the 3-tuple [Xi.shape]. *)
Definition shape_at (Xi : ndarray3) (dim : Z) : result nat :=
  do i <- py_index 3 dim;
  Ok (extent (axis_of_nat i) (shape Xi)).

(** [np.arange(a, b)] *)
Definition arange (a b : Z) : list Z := seqZ a (b - a).

(** Position [(i, j, k)] with its coordinate along [ax] replaced by [s]. *)
Definition elem_along (ax : axis) (A : ndarray3) (s i j k : nat) : num :=
  match ax with
  | AX0 => elem A s j k
  | AX1 => elem A i s k
  | AX2 => elem A i j s
  end.

Definition coord (ax : axis) (i j k : nat) : nat :=
  match ax with
  | AX0 => i
  | AX1 => j
  | AX2 => k
  end.

(** Indexing by an integer array along one axis: [Xi[shift, ...]],
    [Xi[:, shift, :]], [Xi[..., shift]].  The result is a new array whose
    extent along the axis is [len(shift)]; every index is bounds-checked. *)
Definition take (ax : axis) (shift : list Z) (A : ndarray3) : result ndarray3 :=
  do idx <- rmapM (py_index (extent ax (shape A))) shift;
  Ok (Arr3 (with_extent ax (length idx) (shape A))
           (fun i j k => elem_along ax A (nth (coord ax i j k) idx 0%nat) i j k)).

(** Elementwise difference of two volumes.  The operands of the module have
    equal shapes whenever this point is reached; unequal shapes are
    reported as numpy's broadcast error. *)
Definition arr_sub (A B : ndarray3) : result ndarray3 :=
  if decide (shape A = shape B)
  then Ok (Arr3 (shape A) (fun i j k => nsub (elem A i j k) (elem B i j k)))
  else Err ValueError.

Definition arr_add (A B : ndarray3) : result ndarray3 :=
  if decide (shape A = shape B)
  then Ok (Arr3 (shape A) (fun i j k => nadd (elem A i j k) (elem B i j k)))
  else Err ValueError.

(** [A / h] and [a * A] with a scalar. *)
Definition arr_div (A : ndarray3) (h : num) : ndarray3 :=
  Arr3 (shape A) (fun i j k => ndiv (elem A i j k) h).

Definition arr_scale (a : num) (A : ndarray3) : ndarray3 :=
  Arr3 (shape A) (fun i j k => nmul a (elem A i j k)).

(** The source spells its second and third branch [elif: dim == 1:], which
    Python does not parse; they are read as [elif dim == 1:]. *)
Definition forward_diff (Xi : ndarray3) (dim : Z) (vox_size : Qc) : result ndarray3 :=
  do n <- shape_at Xi dim;
  let shift := arange 1 (Z.of_nat n) ++ [(Z.of_nat n - 1)%Z] in
  if decide (dim = 0%Z) then
    do g <- take AX0 shift Xi; do d <- arr_sub g Xi; Ok (arr_div d (Some vox_size))
  else if decide (dim = 1%Z) then
    do g <- take AX1 shift Xi; do d <- arr_sub g Xi; Ok (arr_div d (Some vox_size))
  else if decide (dim = 2%Z) then
    do g <- take AX2 shift Xi; do d <- arr_sub g Xi; Ok (arr_div d (Some vox_size))
  else Err UnboundLocalError.

Definition backward_diff (Xi : ndarray3) (dim : Z) (vox_size : Qc) : result ndarray3 :=
  do n <- shape_at Xi dim;
  let shift := 0%Z :: arange 0 (Z.of_nat n - 1) in
  if decide (dim = 0%Z) then
    do g <- take AX0 shift Xi; do d <- arr_sub Xi g; Ok (arr_div d (Some vox_size))
  else if decide (dim = 1%Z) then
    do g <- take AX1 shift Xi; do d <- arr_sub Xi g; Ok (arr_div d (Some vox_size))
  else if decide (dim = 2%Z) then
    do g <- take AX2 shift Xi; arr_sub Xi (arr_div g (Some vox_size))
  else Err UnboundLocalError.

(** Volumes from and to nested lists, for concrete inputs and outputs. *)
Definition of_list3 (l : list (list (list num))) : ndarray3 :=
  Arr3 (length l, length (nth 0 l []), length (nth 0 (nth 0 l []) []))
       (fun i j k => nth k (nth j (nth i l []) []) None).

Definition tabulate {A : Type} (n : nat) (f : nat -> A) : list A := f <$> seq 0 n.

Definition to_list3 (A : ndarray3) : list (list (list num)) :=
  let '(nx, ny, nz) := shape A in
  tabulate nx (fun i => tabulate ny (fun j => tabulate nz (fun k => elem A i j k))).

Definition in_shape (A : ndarray3) (i j k : nat) : Prop :=
  (i < extent AX0 (shape A) /\ j < extent AX1 (shape A) /\ k < extent AX2 (shape A))%nat.

(** Two volumes are the same array: same shape, same elements. *)
Definition arr_eq (A B : ndarray3) : Prop :=
  shape A = shape B /\ forall i j k, in_shape A i j k -> elem A i j k = elem B i j k.

Definition finite3 (A : ndarray3) : Prop :=
  forall i j k, in_shape A i j k -> num_finite (elem A i j k).

Definition axis_dim (ax : axis) : Z :=
  match ax with
  | AX0 => 0
  | AX1 => 1
  | AX2 => 2
  end.

(** The line [1, 2, 4, 7] along axis 0, as a volume of shape (4, 1, 1). *)
Definition ex_line : ndarray3 := of_list3 [[[int 1]]; [[int 2]]; [[int 4]]; [[int 7]]].
Definition res_list3 (r : result ndarray3) : result (list (list (list num))) :=
  do A <- r; Ok (to_list3 A).

(** ** Per-voxel reading of the two maps

    The formulas as the documentation gives them, on one voxel; the
    theorems below relate the array code to them. *)

Definition iwasawa (d : row) : row :=
  let X1 := r0 d in
  let X4 := ndiv (r1 d) (r0 d) in
  let X5 := ndiv (r3 d) (r0 d) in
  let X2 := nsub (r2 d) (nmul X1 (nsq X4)) in
  let X6 := ndiv (nsub (r4 d) (nmul (nmul X1 X4) X5)) X2 in
  let X3 := nsub (nsub (r5 d) (nmul X1 (nsq X5))) (nmul X2 (nsq X6)) in
  Row X1 X2 X3 X4 X5 X6.

Definition tensor_of (x : row) : row :=
  let X1 := r0 x in
  let X2 := r1 x in
  let X3 := r2 x in
  let X4 := r3 x in
  let X5 := r4 x in
  let X6 := r5 x in
  Row X1
      (nmul X1 X4)
      (nadd X2 (nmul X1 (nsq X4)))
      (nmul X1 X5)
      (nadd (nmul (nmul X1 X4) X5) (nmul X2 X6))
      (nadd (nadd X3 (nmul X1 (nsq X5))) (nmul X2 (nsq X6))).

(** An array that holds [f d] at the selected voxels of [D] and zeros
    elsewhere. *)
Definition masked (f : row -> row) (mask : mask_t) (D : field) : field :=
  zip_with (fun (m : bool) (d : row) => if m then f d else zero_row) mask D.

Definition finite_row (r : row) : Prop :=
  num_finite (r0 r) /\ num_finite (r1 r) /\ num_finite (r2 r) /\
  num_finite (r3 r) /\ num_finite (r4 r) /\ num_finite (r5 r).

Definition ex_tensor : row := Row (int 2) (int 2) (int 5) (int 4) (int 6) (int 14).
Definition ex_coords : row := Row (int 2) (int 3) (frac 14 3) (int 1) (int 2) (frac 2 3).

(** ** Arrays as objects in a store

    numpy arrays are mutable objects reached through references.  To speak
    about which arrays a call writes and which it creates, the four
    functions are also given over a store of array objects: indexing with a
    boolean or integer array, [np.zeros], [np.arange], [np.append] and the
    arithmetic operators create a new array; only an indexed assignment
    [X[mask, c] = v] writes into an existing one. *)

Inductive obj : Type :=
  | OField (a : list row)     (* float array of shape (N, 6) *)
  | OVec (v : list num)       (* 1D float array *)
  | OMask (m : list bool)     (* boolean array *)
  | OIdx (s : list Z)         (* 1D integer array *)
  | OVol (a : ndarray3).      (* float array of shape (X, Y, Z) *)

(** A computation on the store; the store survives an exception. *)
Definition prog (A : Type) : Type := gmap nat obj -> result A * gmap nat obj.

Definition pret {A : Type} (a : A) : prog A := fun s => (Ok a, s).

Definition pbind {A B : Type} (m : prog A) (k : A -> prog B) : prog B :=
  fun s =>
    match m s with
    | (Ok a, s') => k a s'
    | (Err e, s') => (Err e, s')
    end.

Global Instance prog_ret : MRet prog := @pret.
Global Instance prog_bind : MBind prog := fun A B k m => pbind m k.

Definition lift {A : Type} (r : result A) : prog A := fun s => (r, s).

Definition alloc (o : obj) : prog nat :=
  fun s => let l := fresh (dom s) in (Ok l, <[l := o]> s).

Definition store (l : nat) (o : obj) : prog unit :=
  fun s => (Ok tt, <[l := o]> s).

Definition load_field (l : nat) : prog (list row) :=
  fun s => match s !! l with Some (OField a) => (Ok a, s) | _ => (Err TypeError, s) end.

Definition load_vec (l : nat) : prog (list num) :=
  fun s => match s !! l with Some (OVec v) => (Ok v, s) | _ => (Err TypeError, s) end.

Definition load_mask (l : nat) : prog (list bool) :=
  fun s => match s !! l with Some (OMask m) => (Ok m, s) | _ => (Err TypeError, s) end.

Definition load_idx (l : nat) : prog (list Z) :=
  fun s => match s !! l with Some (OIdx i) => (Ok i, s) | _ => (Err TypeError, s) end.

Definition load_vol (l : nat) : prog ndarray3 :=
  fun s => match s !! l with Some (OVol a) => (Ok a, s) | _ => (Err TypeError, s) end.

(** [A[mask, c]] *)
Definition np_getmask (A mask : nat) (c : chan) : prog nat :=
  a ← load_field A; m ← load_mask mask; v ← lift (getmask a m c); alloc (OVec v).

(** [np.zeros(A.shape)] *)
Definition np_zeros_like (A : nat) : prog nat :=
  a ← load_field A; alloc (OField (np_zeros (length a))).

(** [X[mask, c] = vals], in place *)
Definition np_setmask (X mask : nat) (c : chan) (vals : nat) : prog unit :=
  x ← load_field X; m ← load_mask mask; v ← load_vec vals;
  x' ← lift (setmask x m c v); store X (OField x').

Definition np_vbin (op : list num -> list num -> list num) (a b : nat) : prog nat :=
  x ← load_vec a; y ← load_vec b; alloc (OVec (op x y)).

Definition np_vsq (a : nat) : prog nat :=
  x ← load_vec a; alloc (OVec (vsq x)).

Definition x_manifold_h (D mask : nat) : prog nat :=
  Dxx ← np_getmask D mask C0;
  Dxy ← np_getmask D mask C1;
  Dyy ← np_getmask D mask C2;
  Dxz ← np_getmask D mask C3;
  Dyz ← np_getmask D mask C4;
  Dzz ← np_getmask D mask C5;
  X ← np_zeros_like D;
  np_setmask X mask C0 Dxx;;
  t ← np_vbin vdiv Dxy Dxx; np_setmask X mask C3 t;;
  t ← np_vbin vdiv Dxz Dxx; np_setmask X mask C4 t;;
  a0 ← np_getmask X mask C0;
  a3 ← np_getmask X mask C3;
  t ← np_vsq a3; t ← np_vbin vmul a0 t; t ← np_vbin vsub Dyy t;
  np_setmask X mask C1 t;;
  b0 ← np_getmask X mask C0;
  b3 ← np_getmask X mask C3;
  t ← np_vbin vmul b0 b3;
  b4 ← np_getmask X mask C4;
  t ← np_vbin vmul t b4; t ← np_vbin vsub Dyz t;
  b1 ← np_getmask X mask C1;
  t ← np_vbin vdiv t b1;
  np_setmask X mask C5 t;;
  c0 ← np_getmask X mask C0;
  c4 ← np_getmask X mask C4;
  t ← np_vsq c4; t ← np_vbin vmul c0 t; u ← np_vbin vsub Dzz t;
  c1 ← np_getmask X mask C1;
  c5 ← np_getmask X mask C5;
  t ← np_vsq c5; t ← np_vbin vmul c1 t; t ← np_vbin vsub u t;
  np_setmask X mask C2 t;;
  mret X.

Definition d_manifold_h (X mask : nat) : prog nat :=
  X1 ← np_getmask X mask C0;
  X2 ← np_getmask X mask C1;
  X3 ← np_getmask X mask C2;
  X4 ← np_getmask X mask C3;
  X5 ← np_getmask X mask C4;
  X6 ← np_getmask X mask C5;
  D ← np_zeros_like X;
  np_setmask D mask C0 X1;;
  t ← np_vbin vmul X1 X4; np_setmask D mask C1 t;;
  t ← np_vsq X4; t ← np_vbin vmul X1 t; t ← np_vbin vadd X2 t;
  np_setmask D mask C2 t;;
  t ← np_vbin vmul X1 X5; np_setmask D mask C3 t;;
  t ← np_vbin vmul X1 X4; t ← np_vbin vmul t X5;
  u ← np_vbin vmul X2 X6; t ← np_vbin vadd t u;
  np_setmask D mask C4 t;;
  t ← np_vsq X5; t ← np_vbin vmul X1 t; u ← np_vbin vadd X3 t;
  t ← np_vsq X6; t ← np_vbin vmul X2 t; t ← np_vbin vadd u t;
  np_setmask D mask C5 t;;
  mret D.

(** [Xi.shape[dim]]: an integer, no array is created *)
Definition np_shape_at (Xi : nat) (dim : Z) : prog nat :=
  a ← load_vol Xi; lift (shape_at a dim).

Definition np_arange (a b : Z) : prog nat := alloc (OIdx (arange a b)).

(** [np.append(s, x)] and [np.append(x, s)] with a scalar [x] *)
Definition np_append_r (s : nat) (x : Z) : prog nat :=
  l ← load_idx s; alloc (OIdx (l ++ [x])).

Definition np_append_l (x : Z) (s : nat) : prog nat :=
  l ← load_idx s; alloc (OIdx (x :: l)).

Definition np_take (ax : axis) (shift Xi : nat) : prog nat :=
  s ← load_idx shift; a ← load_vol Xi; g ← lift (take ax s a); alloc (OVol g).

Definition np_sub (A B : nat) : prog nat :=
  a ← load_vol A; b ← load_vol B; d ← lift (arr_sub a b); alloc (OVol d).

Definition np_div_scalar (A : nat) (h : num) : prog nat :=
  a ← load_vol A; alloc (OVol (arr_div a h)).

Definition forward_diff_h (Xi : nat) (dim : Z) (vox_size : Qc) : prog nat :=
  n ← np_shape_at Xi dim;
  r ← np_arange 1 (Z.of_nat n);
  shift ← np_append_r r (Z.of_nat n - 1);
  if decide (dim = 0%Z) then
    g ← np_take AX0 shift Xi; d ← np_sub g Xi; np_div_scalar d (Some vox_size)
  else if decide (dim = 1%Z) then
    g ← np_take AX1 shift Xi; d ← np_sub g Xi; np_div_scalar d (Some vox_size)
  else if decide (dim = 2%Z) then
    g ← np_take AX2 shift Xi; d ← np_sub g Xi; np_div_scalar d (Some vox_size)
  else lift (Err UnboundLocalError).

Definition backward_diff_h (Xi : nat) (dim : Z) (vox_size : Qc) : prog nat :=
  n ← np_shape_at Xi dim;
  r ← np_arange 0 (Z.of_nat n - 1);
  shift ← np_append_l 0 r;
  if decide (dim = 0%Z) then
    g ← np_take AX0 shift Xi; d ← np_sub Xi g; np_div_scalar d (Some vox_size)
  else if decide (dim = 1%Z) then
    g ← np_take AX1 shift Xi; d ← np_sub Xi g; np_div_scalar d (Some vox_size)
  else if decide (dim = 2%Z) then
    g ← np_take AX2 shift Xi; q ← np_div_scalar g (Some vox_size); np_sub Xi q
  else lift (Err UnboundLocalError).

(** The array a call returns, read back from the final store. *)
Definition run_field (m : prog nat) (s : gmap nat obj) : result (list row) :=
  match m s with
  | (Ok l, s') => match s' !! l with Some (OField a) => Ok a | _ => Err TypeError end
  | (Err e, _) => Err e
  end.

Definition run_vol (m : prog nat) (s : gmap nat obj) : result ndarray3 :=
  match m s with
  | (Ok l, s') => match s' !! l with Some (OVol a) => Ok a | _ => Err TypeError end
  | (Err e, _) => Err e
  end.

(** * Notions used in the statements *)

(** ** Manifold maps *)

(** Positive-definite tensor: Dxx and the two derived pivots X2, X3 are
    positive (the three pivots of the LDLt factorisation). *)
Definition pos_def (d : row) : Prop :=
  num_pos (r0 d) /\ num_pos (r1 (iwasawa d)) /\ num_pos (r2 (iwasawa d)).

(** ** Difference operators *)

(** The index arrays [shift] of the two operators, as positions. *)
Definition fwd_idx (n : nat) : list nat := seq 1 (n - 1) ++ [(n - 1)%nat].
Definition bwd_idx (n : nat) : list nat := 0%nat :: seq 0 (n - 1).

(** The element the code computes at [(i, j, k)]. *)
Definition fwd_elem (ax : axis) (Xi : ndarray3) (h : Qc) (i j k : nat) : num :=
  ndiv (nsub (elem_along ax Xi (nth (coord ax i j k) (fwd_idx (extent ax (shape Xi))) 0%nat) i j k)
             (elem Xi i j k))
       (Some h).

Definition bwd_elem (ax : axis) (Xi : ndarray3) (h : Qc) (i j k : nat) : num :=
  let prev := elem_along ax Xi (nth (coord ax i j k) (bwd_idx (extent ax (shape Xi))) 0%nat) i j k in
  match ax with
  | AX0 | AX1 => ndiv (nsub (elem Xi i j k) prev) (Some h)
  | AX2 => nsub (elem Xi i j k) (ndiv prev (Some h))
  end.

(** The line [1, 3] and the constant line [2, 2] along axis 2, as volumes
    of shape (1, 1, 2). *)
Definition ex_pair : ndarray3 := of_list3 [[[int 1; int 3]]].
Definition ex_const : ndarray3 := of_list3 [[[int 2; int 2]]].

(** The linear combination [a*f + b*g] of two volumes. *)
Definition lincomb (a b : Qc) (f g : ndarray3) : result ndarray3 :=
  arr_add (arr_scale (Some a) f) (arr_scale (Some b) g).

(** How a call with an axis outside {0, 1, 2} ends. *)
Definition axis_failure (dim : Z) : pyerr :=
  if decide (-3 <= dim < 0)%Z then UnboundLocalError else IndexError.

(** The exceptions by which Python code rejects an argument. *)
Definition invalid_argument (e : pyerr) : bool :=
  match e with
  | ValueError | TypeError => true
  | IndexError | UnboundLocalError => false
  end.

Definition rejects_argument {A : Type} (r : result A) : Prop :=
  exists e, r = Err e /\ invalid_argument e = true.

(** ** Stores *)

(** What a call may do to the store it starts from: every object that was
    there is still there, unchanged, and the array it returns was not. *)
Definition leaves_inputs_returns_fresh (m : prog nat) : Prop :=
  forall (s s' : gmap nat obj) (r : result nat),
    m s = (r, s') ->
    (forall l o, s !! l = Some o -> s' !! l = Some o) /\
    (forall l, r = Ok l -> s !! l = None /\ is_Some (s' !! l)).

Definition frame (s0 s : gmap nat obj) : Prop :=
  forall l o, s0 !! l = Some o -> s !! l = Some o.

Definition fresh_post (s0 : gmap nat obj) (l : nat) (s : gmap nat obj) : Prop :=
  frame s0 s /\ s0 !! l = None /\ is_Some (s !! l).

(** Invariant of a run started in [s0]: the objects of [s0] are untouched,
    and [own] lists arrays created since. *)
Definition inv (s0 : gmap nat obj) (own : list nat) (s : gmap nat obj) : Prop :=
  (forall l o, s0 !! l = Some o -> s !! l = Some o) /\
  Forall (fun l => s0 !! l = None /\ is_Some (s !! l)) own.

(** The same invariant, recording also what the arrays created since
    hold: [facts] lists them with their current contents. *)
Definition cinv (s0 : gmap nat obj) (facts : list (nat * obj)) (s : gmap nat obj) : Prop :=
  (forall l o, s0 !! l = Some o -> s !! l = Some o) /\
  NoDup (facts.*1) /\
  Forall (fun f => s0 !! f.1 = None /\ s !! f.1 = Some f.2) facts.

(** [l] is known to hold [o]: as an input, or as an array created since. *)
Definition known (s0 : gmap nat obj) (facts : list (nat * obj)) (l : nat) (o : obj) : Prop :=
  s0 !! l = Some o \/ (l, o) ∈ facts.

(** Hoare triples on store computations: from a store in [P] the
    computation ends in [Q] when it returns and in [E] when it raises. *)
Definition triple {A : Type} (P : gmap nat obj -> Prop) (m : prog A)
    (Q : A -> gmap nat obj -> Prop) (E : pyerr -> gmap nat obj -> Prop) : Prop :=
  forall s, P s ->
    match m s with
    | (Ok a, s') => Q a s'
    | (Err e, s') => E e s'
    end.

(** A store with a two-voxel tensor field at 0 and its mask at 1. *)
Definition ex_store : gmap nat obj :=
  <[0%nat := OField [ex_tensor; ex_tensor]]> (<[1%nat := OMask [true; false]]> ∅).

(** ** Further notions *)

(** [c * d] on one voxel, as numpy's product of an array by a scalar. *)
Definition scale_row (c : Qc) (d : row) : row :=
  Row (nmul (Some c) (r0 d)) (nmul (Some c) (r1 d)) (nmul (Some c) (r2 d))
      (nmul (Some c) (r3 d)) (nmul (Some c) (r4 d)) (nmul (Some c) (r5 d)).

(** A tensor with no off-diagonal part. *)
Definition diag_row (a b c : Qc) : row :=
  Row (Some a) (Some 0) (Some b) (Some 0) (Some 0) (Some c).

(** Leading principal minors of the symmetric matrix
    [[Dxx, Dxy, Dxz], [Dxy, Dyy, Dyz], [Dxz, Dyz, Dzz]] stored as
    (Dxx, Dxy, Dyy, Dxz, Dyz, Dzz). *)
Definition minor1 (d : row) : num := r0 d.

Definition minor2 (d : row) : num := nsub (nmul (r0 d) (r2 d)) (nsq (r1 d)).

Definition minor3 (d : row) : num :=
  nadd (nsub (nmul (r0 d) (nsub (nmul (r2 d) (r5 d)) (nsq (r4 d))))
             (nmul (r1 d) (nsub (nmul (r1 d) (r5 d)) (nmul (r4 d) (r3 d)))))
       (nmul (r3 d) (nsub (nmul (r1 d) (r4 d)) (nmul (r2 d) (r3 d)))).

(** ** The same code on binary64

    The four functions once more, statement by statement, with the
    arithmetic numpy performs on float64 arrays: IEEE 754 binary64 with
    rounding to nearest, where a division by zero stores [inf] or [nan]
    and raises nothing.  Only the numbers change; masks, index arrays,
    shapes and exceptions are those of the exact reading above. *)

Module Binary64.
Import PrimFloat.

(** [a ** 2]: numpy squares by one multiplication. *)
Definition sq (a : float) : float := (a * a)%float.

Record row : Type := Row { r0 : float; r1 : float; r2 : float; r3 : float; r4 : float; r5 : float }.

Definition getc (c : chan) (r : row) : float :=
  match c with
  | C0 => r0 r | C1 => r1 r | C2 => r2 r | C3 => r3 r | C4 => r4 r | C5 => r5 r
  end.

Definition setc (c : chan) (v : float) (r : row) : row :=
  match c with
  | C0 => Row v (r1 r) (r2 r) (r3 r) (r4 r) (r5 r)
  | C1 => Row (r0 r) v (r2 r) (r3 r) (r4 r) (r5 r)
  | C2 => Row (r0 r) (r1 r) v (r3 r) (r4 r) (r5 r)
  | C3 => Row (r0 r) (r1 r) (r2 r) v (r4 r) (r5 r)
  | C4 => Row (r0 r) (r1 r) (r2 r) (r3 r) v (r5 r)
  | C5 => Row (r0 r) (r1 r) (r2 r) (r3 r) (r4 r) v
  end.

Definition zero_row : row := Row 0%float 0%float 0%float 0%float 0%float 0%float.

(** [np.zeros(A.shape)] *)
Definition np_zeros (n : nat) : list row := replicate n zero_row.

(** [A[mask, c]] *)
Definition getmask (A : list row) (mask : list bool) (c : chan) : result (list float) :=
  if decide (length mask = length A)
  then Ok (getc c <$> select mask A)
  else Err IndexError.

Fixpoint scatter (c : chan) (mask : list bool) (vals : list float) (X : list row) : list row :=
  match mask, X with
  | m :: mask', x :: X' =>
      if m then
        match vals with
        | v :: vals' => setc c v x :: scatter c mask' vals' X'
        | [] => x :: X'
        end
      else x :: scatter c mask' vals X'
  | _, _ => X
  end.

(** [X[mask, c] = vals] *)
Definition setmask (X : list row) (mask : list bool) (c : chan) (vals : list float)
  : result (list row) :=
  if decide (length mask = length X) then
    if decide (length vals = count_true mask)
    then Ok (scatter c mask vals X)
    else Err ValueError
  else Err IndexError.

Definition vadd : list float -> list float -> list float := zip_with add.
Definition vsub : list float -> list float -> list float := zip_with sub.
Definition vmul : list float -> list float -> list float := zip_with mul.
Definition vdiv : list float -> list float -> list float := zip_with div.
Definition vsq : list float -> list float := fmap sq.

Definition x_manifold (D : list row) (mask : list bool) : result (list row) :=
  do Dxx <- getmask D mask C0;
  do Dxy <- getmask D mask C1;
  do Dyy <- getmask D mask C2;
  do Dxz <- getmask D mask C3;
  do Dyz <- getmask D mask C4;
  do Dzz <- getmask D mask C5;
  let X := np_zeros (length D) in
  do X <- setmask X mask C0 Dxx;
  do X <- setmask X mask C3 (vdiv Dxy Dxx);
  do X <- setmask X mask C4 (vdiv Dxz Dxx);
  do a0 <- getmask X mask C0;
  do a3 <- getmask X mask C3;
  do X <- setmask X mask C1 (vsub Dyy (vmul a0 (vsq a3)));
  do b0 <- getmask X mask C0;
  do b3 <- getmask X mask C3;
  do b4 <- getmask X mask C4;
  do b1 <- getmask X mask C1;
  do X <- setmask X mask C5 (vdiv (vsub Dyz (vmul (vmul b0 b3) b4)) b1);
  do c0 <- getmask X mask C0;
  do c4 <- getmask X mask C4;
  do c1 <- getmask X mask C1;
  do c5 <- getmask X mask C5;
  do X <- setmask X mask C2
            (vsub (vsub Dzz (vmul c0 (vsq c4))) (vmul c1 (vsq c5)));
  Ok X.

Definition d_manifold (X : list row) (mask : list bool) : result (list row) :=
  do X1 <- getmask X mask C0;
  do X2 <- getmask X mask C1;
  do X3 <- getmask X mask C2;
  do X4 <- getmask X mask C3;
  do X5 <- getmask X mask C4;
  do X6 <- getmask X mask C5;
  let D := np_zeros (length X) in
  do D <- setmask D mask C0 X1;
  do D <- setmask D mask C1 (vmul X1 X4);
  do D <- setmask D mask C2 (vadd X2 (vmul X1 (vsq X4)));
  do D <- setmask D mask C3 (vmul X1 X5);
  do D <- setmask D mask C4 (vadd (vmul (vmul X1 X4) X5) (vmul X2 X6));
  do D <- setmask D mask C5
            (vadd (vadd X3 (vmul X1 (vsq X5))) (vmul X2 (vsq X6)));
  Ok D.

Record ndarray3 : Type := Arr3 { shape : nat * nat * nat; elem : nat -> nat -> nat -> float }.

Definition shape_at (Xi : ndarray3) (dim : Z) : result nat :=
  do i <- py_index 3 dim;
  Ok (extent (axis_of_nat i) (shape Xi)).

Definition elem_along (ax : axis) (A : ndarray3) (s i j k : nat) : float :=
  match ax with
  | AX0 => elem A s j k
  | AX1 => elem A i s k
  | AX2 => elem A i j s
  end.

Definition take (ax : axis) (shift : list Z) (A : ndarray3) : result ndarray3 :=
  do idx <- rmapM (py_index (extent ax (shape A))) shift;
  Ok (Arr3 (with_extent ax (length idx) (shape A))
           (fun i j k => elem_along ax A (nth (coord ax i j k) idx 0%nat) i j k)).

Definition arr_sub (A B : ndarray3) : result ndarray3 :=
  if decide (shape A = shape B)
  then Ok (Arr3 (shape A) (fun i j k => (elem A i j k - elem B i j k)%float))
  else Err ValueError.

Definition arr_add (A B : ndarray3) : result ndarray3 :=
  if decide (shape A = shape B)
  then Ok (Arr3 (shape A) (fun i j k => (elem A i j k + elem B i j k)%float))
  else Err ValueError.

Definition arr_div (A : ndarray3) (h : float) : ndarray3 :=
  Arr3 (shape A) (fun i j k => (elem A i j k / h)%float).

Definition arr_scale (a : float) (A : ndarray3) : ndarray3 :=
  Arr3 (shape A) (fun i j k => (a * elem A i j k)%float).

Definition forward_diff (Xi : ndarray3) (dim : Z) (vox_size : float) : result ndarray3 :=
  do n <- shape_at Xi dim;
  let shift := arange 1 (Z.of_nat n) ++ [(Z.of_nat n - 1)%Z] in
  if decide (dim = 0%Z) then
    do g <- take AX0 shift Xi; do d <- arr_sub g Xi; Ok (arr_div d vox_size)
  else if decide (dim = 1%Z) then
    do g <- take AX1 shift Xi; do d <- arr_sub g Xi; Ok (arr_div d vox_size)
  else if decide (dim = 2%Z) then
    do g <- take AX2 shift Xi; do d <- arr_sub g Xi; Ok (arr_div d vox_size)
  else Err UnboundLocalError.

Definition backward_diff (Xi : ndarray3) (dim : Z) (vox_size : float) : result ndarray3 :=
  do n <- shape_at Xi dim;
  let shift := 0%Z :: arange 0 (Z.of_nat n - 1) in
  if decide (dim = 0%Z) then
    do g <- take AX0 shift Xi; do d <- arr_sub Xi g; Ok (arr_div d vox_size)
  else if decide (dim = 1%Z) then
    do g <- take AX1 shift Xi; do d <- arr_sub Xi g; Ok (arr_div d vox_size)
  else if decide (dim = 2%Z) then
    do g <- take AX2 shift Xi; arr_sub Xi (arr_div g vox_size)
  else Err UnboundLocalError.

Definition of_list3 (l : list (list (list float))) : ndarray3 :=
  Arr3 (length l, length (nth 0 l []), length (nth 0 (nth 0 l []) []))
       (fun i j k => nth k (nth j (nth i l []) []) nan).

Definition to_list3 (A : ndarray3) : list (list (list float)) :=
  let '(nx, ny, nz) := shape A in
  tabulate nx (fun i => tabulate ny (fun j => tabulate nz (fun k => elem A i j k))).

Definition res_list3 (r : result ndarray3) : result (list (list (list float))) :=
  do A <- r; Ok (to_list3 A).

(** [a*f + b*g] *)
Definition lincomb (a b : float) (f g : ndarray3) : result ndarray3 :=
  arr_add (arr_scale a f) (arr_scale b g).

Definition ex_coords : row :=
  Row 2%float 3%float (14 / 3)%float 1%float 2%float (2 / 3)%float.



End Binary64.

(** * Properties *)

(** ** Masked reads and writes *)

Section masked_arrays.
Implicit Types (mask : mask_t) (D X : field) (c : chan).

Lemma select_length {A : Type} mask (l : list A) :
  length mask = length l -> length (select mask l) = count_true mask.
Proof.
  revert l. induction mask as [|m mask IH]; intros [|x l] Hlen; simplify_eq/=; auto.
  destruct m; simpl; auto.
Qed.

Lemma masked_length f mask D :
  length mask = length D -> length (masked f mask D) = length D.
Proof. intros Hlen. unfold masked. rewrite length_zip_with. lia. Qed.

Lemma np_zeros_masked mask D :
  length mask = length D -> np_zeros (length D) = masked (fun _ => zero_row) mask D.
Proof.
  revert D. induction mask as [|m mask IH]; intros [|d D] Hlen; simplify_eq/=; auto.
  unfold np_zeros, masked in *. simpl. rewrite IH by done. by destruct m.
Qed.

Lemma select_masked f mask D :
  select mask (masked f mask D) = f <$> select mask D.
Proof.
  revert D. induction mask as [|m mask IH]; intros [|d D]; simpl; auto.
  destruct m; simpl; by rewrite IH.
Qed.

Lemma getmask_ok D mask c :
  length mask = length D -> getmask D mask c = Ok (getc c <$> select mask D).
Proof. intros Hlen. unfold getmask. by rewrite decide_True. Qed.

Lemma getmask_masked f mask D c :
  length mask = length D ->
  getmask (masked f mask D) mask c = Ok ((fun d => getc c (f d)) <$> select mask D).
Proof.
  intros Hlen. rewrite getmask_ok by (by rewrite masked_length).
  by rewrite select_masked, <- list_fmap_compose.
Qed.

Lemma scatter_masked f (h : row -> num) mask D c :
  scatter c mask (h <$> select mask D) (masked f mask D)
  = masked (fun d => setc c (h d) (f d)) mask D.
Proof.
  revert D. induction mask as [|m mask IH]; intros [|d D]; simpl; auto.
  destruct m; simpl; by rewrite IH.
Qed.

Lemma setmask_masked f (h : row -> num) mask D c :
  length mask = length D ->
  setmask (masked f mask D) mask c (h <$> select mask D)
  = Ok (masked (fun d => setc c (h d) (f d)) mask D).
Proof.
  intros Hlen. unfold setmask.
  rewrite decide_True by (by rewrite masked_length).
  rewrite decide_True by (by rewrite length_fmap, select_length).
  by rewrite scatter_masked.
Qed.

Lemma masked_lookup_true f mask D i d :
  mask !! i = Some true -> D !! i = Some d -> masked f mask D !! i = Some (f d).
Proof.
  intros Hm Hd. unfold masked. rewrite lookup_zip_with, Hm. simpl. by rewrite Hd.
Qed.

Lemma masked_lookup_false f mask D i :
  length mask = length D ->
  mask !! i = Some false -> masked f mask D !! i = Some zero_row.
Proof.
  intros Hlen Hm. unfold masked. rewrite lookup_zip_with, Hm. simpl.
  destruct (D !! i) as [d|] eqn:Hd; [done|].
  apply lookup_ge_None in Hd. apply lookup_lt_Some in Hm. lia.
Qed.

Lemma masked_ext f g mask D :
  (forall d, f d = g d) -> masked f mask D = masked g mask D.
Proof.
  intros Hfg. unfold masked. revert D.
  induction mask as [|m mask IH]; intros [|d D]; simpl; auto.
  rewrite IH. destruct m; by rewrite ?Hfg.
Qed.
End masked_arrays.

(** Elementwise operations on arrays read through one mask. *)
Lemma zip_with_fmap_same {A B C E : Type} (op : B -> C -> E) (f : A -> B) (g : A -> C)
    (l : list A) :
  zip_with op (f <$> l) (g <$> l) = (fun a => op (f a) (g a)) <$> l.
Proof. induction l as [|a l IH]; [done|]. csimpl. by rewrite IH. Qed.

Lemma vsq_fmap {A : Type} (f : A -> num) (l : list A) :
  vsq (f <$> l) = (fun a => nsq (f a)) <$> l.
Proof. unfold vsq. induction l as [|a l IH]; [done|]. csimpl. by rewrite IH. Qed.

Ltac vec_simpl :=
  unfold vadd, vsub, vmul, vdiv;
  repeat first [ rewrite vsq_fmap | rewrite zip_with_fmap_same ].

(** ** The two maps, voxel by voxel *)

Lemma x_manifold_masked (D : field) (mask : mask_t) :
  length mask = length D -> x_manifold D mask = Ok (masked iwasawa mask D).
Proof.
  intros Hlen. unfold x_manifold.
  rewrite !getmask_ok by done. cbn [rbind].
  rewrite (np_zeros_masked mask D) by done.
  repeat first
    [ rewrite getmask_masked by done; cbn [rbind]
    | progress vec_simpl
    | rewrite setmask_masked by done; cbn [rbind] ].
  reflexivity.
Qed.

Lemma d_manifold_masked_plain (X : field) (mask : mask_t) :
  length mask = length X -> d_manifold X mask = Ok (masked tensor_of mask X).
Proof.
  intros Hlen. unfold d_manifold.
  rewrite !getmask_ok by done. cbn [rbind].
  rewrite (np_zeros_masked mask X) by done.
  repeat first
    [ progress vec_simpl
    | rewrite setmask_masked by done; cbn [rbind] ].
  reflexivity.
Qed.

(** ** Algebra of one voxel *)

Lemma num_pos_nonzero (a : num) : num_pos a -> num_nonzero a.
Proof.
  intros (q & -> & Hq). exists q. split; [done|].
  intros ->. by apply Qclt_not_eq in Hq.
Qed.

Lemma num_pos_finite (a : num) : num_pos a -> num_finite a.
Proof. intros (q & -> & _). by exists q. Qed.

Ltac num_cases :=
  repeat match goal with
  | H : num_nonzero _ |- _ => destruct H as (? & ? & ?)
  | H : num_finite _ |- _ => destruct H as (? & ?)
  | H : finite_row _ |- _ => destruct H as (? & ? & ? & ? & ? & ?)
  end;
  simplify_eq/=.

Ltac num_step :=
  match goal with
  | H : context [decide (?q = 0)] |- _ => destruct (decide (q = 0)); simplify_eq/=
  | |- context [decide (?q = 0)] => destruct (decide (q = 0)); simplify_eq/=
  | H : match ?a with Some _ => _ | None => _ end = Some _ |- _ =>
      destruct a eqn:?; simplify_eq/=
  end.

Lemma tensor_of_iwasawa (d : row) :
  num_nonzero (r0 d) -> num_nonzero (r1 (iwasawa d)) -> num_finite (r2 (iwasawa d)) ->
  tensor_of (iwasawa d) = d.
Proof.
  destruct d as [dxx dxy dyy dxz dyz dzz]. unfold tensor_of, iwasawa. cbn [r0 r1 r2 r3 r4 r5].
  intros H1 H2 H3. num_cases.
  unfold nsub, nmul, nadd, ndiv, nsq in *.
  repeat num_step.
  match goal with
  | H : ?p <> Q2Qc 0 |- _ =>
      lazymatch p with (_ - _)%Qc => set (pv := p) in * end
  end.
  f_equal; f_equal; try (field; auto).
  subst pv. field. auto.
Qed.


Lemma pos_def_round_trip (d : row) : pos_def d -> tensor_of (iwasawa d) = d.
Proof.
  intros (H1 & H2 & H3).
  apply tensor_of_iwasawa; auto using num_pos_nonzero, num_pos_finite.
Qed.

(** ** Claims on the manifold maps *)

(** C3: at every selected voxel [x_manifold] stores X1 = Dxx, X4 = Dxy/Dxx,
    X5 = Dxz/Dxx, X2 = Dyy - X1*X4^2, X6 = (Dyz - X1*X4*X5)/X2 and
    X3 = Dzz - X1*X5^2 - X2*X6^2; on the tensor (2, 2, 5, 4, 6, 14) this gives
    X1 = 2, X4 = 1, X5 = 2, X2 = 3, X6 = 2/3, X3 = 14/3. *)
Theorem x_manifold_formulas (D : field) (mask : mask_t) (i : nat) (d : row) :
  length mask = length D ->
  mask !! i = Some true ->
  D !! i = Some d ->
  (exists X x,
      x_manifold D mask = Ok X /\ X !! i = Some x /\
      r0 x = r0 d /\
      r3 x = ndiv (r1 d) (r0 d) /\
      r4 x = ndiv (r3 d) (r0 d) /\
      r1 x = nsub (r2 d) (nmul (r0 x) (nsq (r3 x))) /\
      r5 x = ndiv (nsub (r4 d) (nmul (nmul (r0 x) (r3 x)) (r4 x))) (r1 x) /\
      r2 x = nsub (nsub (r5 d) (nmul (r0 x) (nsq (r4 x)))) (nmul (r1 x) (nsq (r5 x))))
  /\ x_manifold [ex_tensor] [true] = Ok [ex_coords]
  /\ ex_coords = Row (int 2) (int 3) (frac 14 3) (int 1) (int 2) (frac 2 3).
Proof.
  intros Hlen Hm Hd. split; [|split].
  - exists (masked iwasawa mask D), (iwasawa d).
    split; [by apply x_manifold_masked|].
    split; [by apply masked_lookup_true|].
    repeat split.
  - apply (bool_decide_unpack _). vm_compute. exact I.
  - reflexivity.
Qed.

Lemma x_manifold_formulas_witness :
  (exists X x,
      x_manifold [ex_tensor] [true] = Ok X /\ X !! 0%nat = Some x /\
      r0 x = r0 ex_tensor /\
      r3 x = ndiv (r1 ex_tensor) (r0 ex_tensor) /\
      r4 x = ndiv (r3 ex_tensor) (r0 ex_tensor) /\
      r1 x = nsub (r2 ex_tensor) (nmul (r0 x) (nsq (r3 x))) /\
      r5 x = ndiv (nsub (r4 ex_tensor) (nmul (nmul (r0 x) (r3 x)) (r4 x))) (r1 x) /\
      r2 x = nsub (nsub (r5 ex_tensor) (nmul (r0 x) (nsq (r4 x))))
                  (nmul (r1 x) (nsq (r5 x))))
  /\ x_manifold [ex_tensor] [true] = Ok [ex_coords]
  /\ ex_coords = Row (int 2) (int 3) (frac 14 3) (int 1) (int 2) (frac 2 3).
Proof. apply (x_manifold_formulas [ex_tensor] [true] 0 ex_tensor); reflexivity. Defined.

(** C2: both maps leave exactly zero, in all six channels, at every voxel
    the mask does not select, whatever the input holds there. *)
Theorem unmasked_voxels_zero (A : field) (mask : mask_t) (i : nat) :
  length mask = length A ->
  mask !! i = Some false ->
  (exists X, x_manifold A mask = Ok X /\ X !! i = Some zero_row) /\
  (exists D, d_manifold A mask = Ok D /\ D !! i = Some zero_row).
Proof.
  intros Hlen Hm. split.
  - exists (masked iwasawa mask A). split; [by apply x_manifold_masked|].
    by apply masked_lookup_false.
  - exists (masked tensor_of mask A). split; [by apply d_manifold_masked_plain|].
    by apply masked_lookup_false.
Qed.

Lemma unmasked_voxels_zero_witness :
  (exists X, x_manifold [ex_tensor; ex_tensor] [true; false] = Ok X /\
             X !! 1%nat = Some zero_row) /\
  (exists D, d_manifold [ex_tensor; ex_tensor] [true; false] = Ok D /\
             D !! 1%nat = Some zero_row).
Proof.
  apply (unmasked_voxels_zero [ex_tensor; ex_tensor] [true; false] 1); reflexivity.
Defined.

(** C1: on a positive-definite tensor field (Dxx > 0 and both derived pivots
    X2, X3 > 0 at every selected voxel) [d_manifold] after [x_manifold]
    gives back [D] at every selected voxel, in all six channels. *)
Theorem manifold_round_trip (D : field) (mask : mask_t) :
  length mask = length D ->
  (forall i d, mask !! i = Some true -> D !! i = Some d -> pos_def d) ->
  exists X D',
    x_manifold D mask = Ok X /\ d_manifold X mask = Ok D' /\
    forall i, mask !! i = Some true -> D' !! i = D !! i.
Proof.
  intros Hlen Hpd.
  exists (masked iwasawa mask D), (masked tensor_of mask (masked iwasawa mask D)).
  split; [by apply x_manifold_masked|].
  split; [apply d_manifold_masked_plain; by rewrite masked_length|].
  intros i Hm.
  destruct (D !! i) as [d|] eqn:Hd.
  - rewrite (masked_lookup_true _ _ _ i (iwasawa d)); auto using masked_lookup_true.
    f_equal. apply pos_def_round_trip. eauto.
  - apply lookup_lt_Some in Hm. apply lookup_ge_None in Hd. lia.
Qed.

Lemma ex_tensor_pos_def : pos_def ex_tensor.
Proof.
  repeat split; eexists; (split; [vm_compute; reflexivity | reflexivity]).
Defined.

Lemma manifold_round_trip_witness :
  exists X D',
    x_manifold [ex_tensor] [true] = Ok X /\ d_manifold X [true] = Ok D' /\
    forall i, [true] !! i = Some true -> D' !! i = [ex_tensor] !! i.
Proof.
  apply (manifold_round_trip [ex_tensor] [true]); [reflexivity|].
  intros [|i] d Hm Hd; simplify_eq/=. exact ex_tensor_pos_def.
Defined.





(** ** Index arrays of the difference operators *)

Section shift_arrays.
Implicit Types (n i : nat).

Lemma py_index_nat n i : (i < n)%nat -> py_index n (Z.of_nat i) = Ok i.
Proof.
  intros Hi. unfold py_index. rewrite decide_True by lia. by rewrite Nat2Z.id.
Qed.

Lemma rmapM_py_index n (l : list nat) :
  Forall (fun i => (i < n)%nat) l -> rmapM (py_index n) (Z.of_nat <$> l) = Ok l.
Proof.
  induction 1 as [|i l Hi _ IH]; [done|].
  csimpl. rewrite py_index_nat by done. cbn [rbind]. by rewrite IH.
Qed.

Lemma arange_nat (a b : nat) :
  arange (Z.of_nat a) (Z.of_nat b) = Z.of_nat <$> seq a (b - a).
Proof.
  unfold arange, seqZ.
  replace (Z.to_nat (Z.of_nat b - Z.of_nat a)) with (b - a)%nat by lia.
  generalize (b - a)%nat as len. intros len.
  change a with (0 + a)%nat at 2. generalize 0%nat as s.
  induction len as [|len IH]; intros s; [done|].
  csimpl. rewrite (IH (S s)). f_equal. lia.
Qed.

Lemma fwd_shift_nat n :
  (0 < n)%nat ->
  arange 1 (Z.of_nat n) ++ [(Z.of_nat n - 1)%Z] = Z.of_nat <$> fwd_idx n.
Proof.
  intros Hn. unfold fwd_idx. rewrite fmap_app. csimpl.
  change 1%Z with (Z.of_nat 1). rewrite arange_nat.
  do 2 f_equal. lia.
Qed.

Lemma bwd_shift_nat n :
  (0 < n)%nat ->
  0%Z :: arange 0 (Z.of_nat n - 1) = Z.of_nat <$> bwd_idx n.
Proof.
  intros Hn. unfold bwd_idx. csimpl. f_equal.
  replace (Z.of_nat n - 1)%Z with (Z.of_nat (n - 1)) by lia.
  change 0%Z with (Z.of_nat 0). rewrite arange_nat. by rewrite Nat.sub_0_r.
Qed.

Lemma fwd_idx_length n : (0 < n)%nat -> length (fwd_idx n) = n.
Proof. intros Hn. unfold fwd_idx. rewrite length_app, length_seq. simpl. lia. Qed.

Lemma bwd_idx_length n : (0 < n)%nat -> length (bwd_idx n) = n.
Proof. intros Hn. unfold bwd_idx. simpl. rewrite length_seq. lia. Qed.

Lemma fwd_idx_bound n : (0 < n)%nat -> Forall (fun i => (i < n)%nat) (fwd_idx n).
Proof.
  intros Hn. unfold fwd_idx. apply Forall_app. split.
  - apply Forall_forall. intros i Hi. apply in_seq in Hi. lia.
  - repeat constructor. lia.
Qed.

Lemma bwd_idx_bound n : (0 < n)%nat -> Forall (fun i => (i < n)%nat) (bwd_idx n).
Proof.
  intros Hn. unfold bwd_idx. constructor; [done|].
  apply Forall_forall. intros i Hi. apply in_seq in Hi. lia.
Qed.

(** The forward neighbour of [i] is [i + 1], clamped at the last index. *)
Lemma fwd_idx_next n i : (S i < n)%nat -> nth i (fwd_idx n) 0%nat = S i.
Proof.
  intros Hi. unfold fwd_idx. rewrite app_nth1 by (rewrite length_seq; lia).
  rewrite seq_nth by lia. lia.
Qed.

Lemma fwd_idx_last n i : S i = n -> nth i (fwd_idx n) 0%nat = i.
Proof.
  intros <-. unfold fwd_idx. rewrite app_nth2 by (rewrite length_seq; lia).
  rewrite length_seq. replace (i - (S i - 1))%nat with 0%nat by lia. simpl. lia.
Qed.

(** The backward neighbour of [i] is [i - 1], clamped at index 0. *)
Lemma bwd_idx_prev n i : (S i < n)%nat -> nth (S i) (bwd_idx n) 0%nat = i.
Proof. intros Hi. unfold bwd_idx. simpl. rewrite seq_nth by lia. lia. Qed.

Lemma bwd_idx_first n : nth 0 (bwd_idx n) 0%nat = 0%nat.
Proof. reflexivity. Qed.
End shift_arrays.

(** ** The difference operators, element by element *)

Lemma shape_at_axis (Xi : ndarray3) (ax : axis) :
  shape_at Xi (axis_dim ax) = Ok (extent ax (shape Xi)).
Proof. by destruct ax. Qed.

Lemma with_extent_id (ax : axis) (s : nat * nat * nat) :
  with_extent ax (extent ax s) s = s.
Proof. destruct s as [[nx ny] nz]. by destruct ax. Qed.

Lemma take_idx (ax : axis) (Xi : ndarray3) (idx : list nat) :
  Forall (fun i => (i < extent ax (shape Xi))%nat) idx ->
  length idx = extent ax (shape Xi) ->
  take ax (Z.of_nat <$> idx) Xi
  = Ok (Arr3 (shape Xi)
             (fun i j k => elem_along ax Xi (nth (coord ax i j k) idx 0%nat) i j k)).
Proof.
  intros Hb Hlen. unfold take. rewrite rmapM_py_index by done. cbn [rbind].
  by rewrite Hlen, with_extent_id.
Qed.

Lemma forward_diff_ok (Xi : ndarray3) (ax : axis) (h : Qc) :
  (0 < extent ax (shape Xi))%nat ->
  forward_diff Xi (axis_dim ax) h = Ok (Arr3 (shape Xi) (fwd_elem ax Xi h)).
Proof.
  intros Hn. unfold forward_diff. rewrite shape_at_axis. cbn [rbind].
  rewrite fwd_shift_nat by done.
  destruct ax; cbn [axis_dim];
    repeat (first [rewrite decide_True by done | rewrite decide_False by done]);
    (rewrite take_idx by auto using fwd_idx_bound, fwd_idx_length);
    cbn [rbind]; unfold arr_sub; cbn [shape];
    (rewrite decide_True by done); reflexivity.
Qed.

Lemma backward_diff_ok (Xi : ndarray3) (ax : axis) (h : Qc) :
  (0 < extent ax (shape Xi))%nat ->
  backward_diff Xi (axis_dim ax) h = Ok (Arr3 (shape Xi) (bwd_elem ax Xi h)).
Proof.
  intros Hn. unfold backward_diff. rewrite shape_at_axis. cbn [rbind].
  rewrite bwd_shift_nat by done.
  destruct ax; cbn [axis_dim];
    repeat (first [rewrite decide_True by done | rewrite decide_False by done]);
    (rewrite take_idx by auto using bwd_idx_bound, bwd_idx_length);
    cbn [rbind]; unfold arr_sub; cbn [shape arr_div];
    (rewrite decide_True by done); reflexivity.
Qed.

Lemma coord_in_shape (ax : axis) (A : ndarray3) (i j k : nat) :
  in_shape A i j k -> (coord ax i j k < extent ax (shape A))%nat.
Proof. intros (Hi & Hj & Hk). by destruct ax. Qed.

Lemma finite_along (ax : axis) (A : ndarray3) (s i j k : nat) :
  finite3 A -> in_shape A i j k -> (s < extent ax (shape A))%nat ->
  num_finite (elem_along ax A s i j k).
Proof.
  intros Hfin (Hi & Hj & Hk) Hs.
  destruct ax; simpl; apply Hfin; repeat split; assumption.
Qed.

Lemma fwd_idx_in (n c : nat) : (c < n)%nat -> (nth c (fwd_idx n) 0 < n)%nat.
Proof.
  intros Hc. destruct (decide (S c = n)) as [Heq|Hne].
  - rewrite fwd_idx_last by done. lia.
  - rewrite fwd_idx_next by lia. lia.
Qed.

Lemma elem_along_self (ax : axis) (A : ndarray3) (i j k : nat) :
  elem_along ax A (coord ax i j k) i j k = elem A i j k.
Proof. by destruct ax. Qed.

Lemma ndiv_sub_self (q h : Qc) : h <> 0 -> ndiv (nsub (Some q) (Some q)) (Some h) = nzero.
Proof.
  intros Hh. unfold ndiv, nsub, nzero. rewrite decide_False by done.
  f_equal. field. done.
Qed.

(** Outside the domain of the claims: on an axis without any sample the
    index array is [[-1]] (forward) or [[0]] (backward), out of bounds for an
    axis of size 0, and both operators raise IndexError. *)
Lemma diff_empty_axis (Xi : ndarray3) (ax : axis) (h : Qc) :
  extent ax (shape Xi) = 0%nat ->
  forward_diff Xi (axis_dim ax) h = Err IndexError /\
  backward_diff Xi (axis_dim ax) h = Err IndexError.
Proof.
  intros Hn. unfold forward_diff, backward_diff.
  rewrite shape_at_axis, Hn. cbn [rbind].
  destruct ax; cbn [axis_dim];
    repeat (first [rewrite decide_True by done | rewrite decide_False by done]);
    unfold take; rewrite Hn; split; reflexivity.
Qed.

(** ** Claims on the difference operators *)

(** C4: along the chosen axis [forward_diff] returns an array of the shape of
    its input with grad[i] = (field[i+1] - field[i]) / voxelSize for i in
    0..N-2 and grad[N-1] = 0; the line [1, 2, 4, 7] with voxel size 1 gives
    [1, 2, 3, 0]. *)
Theorem forward_diff_spec (Xi : ndarray3) (ax : axis) (h : Qc) :
  (0 < extent ax (shape Xi))%nat ->
  h <> 0 ->
  finite3 Xi ->
  (exists G,
      forward_diff Xi (axis_dim ax) h = Ok G /\
      shape G = shape Xi /\
      forall i j k, in_shape Xi i j k ->
        ((S (coord ax i j k) < extent ax (shape Xi))%nat ->
         elem G i j k
         = ndiv (nsub (elem_along ax Xi (S (coord ax i j k)) i j k) (elem Xi i j k))
                (Some h)) /\
        (S (coord ax i j k) = extent ax (shape Xi) -> elem G i j k = nzero))
  /\ res_list3 (forward_diff ex_line 0 1)
     = Ok [[[int 1]]; [[int 2]]; [[int 3]]; [[int 0]]].
Proof.
  intros Hn Hh Hfin. split.
  - eexists. split; [by apply forward_diff_ok|]. split; [done|].
    intros i j k Hin. cbn [elem]. unfold fwd_elem. split.
    + intros Hlt. by rewrite fwd_idx_next.
    + intros Hlast. rewrite fwd_idx_last by done. rewrite elem_along_self.
      destruct (Hfin i j k Hin) as [q ->]. by apply ndiv_sub_self.
  - apply (bool_decide_unpack _). vm_compute. exact I.
Qed.

Lemma ex_line_finite : finite3 ex_line.
Proof.
  intros i j k (Hi & Hj & Hk). simpl in *.
  assert (j = 0%nat) as -> by lia. assert (k = 0%nat) as -> by lia.
  destruct i as [|[|[|[|i]]]]; try (eexists; reflexivity). lia.
Defined.

Lemma forward_diff_spec_witness :
  (exists G,
      forward_diff ex_line (axis_dim AX0) 1 = Ok G /\
      shape G = shape ex_line /\
      forall i j k, in_shape ex_line i j k ->
        ((S (coord AX0 i j k) < extent AX0 (shape ex_line))%nat ->
         elem G i j k
         = ndiv (nsub (elem_along AX0 ex_line (S (coord AX0 i j k)) i j k)
                      (elem ex_line i j k))
                (Some 1)) /\
        (S (coord AX0 i j k) = extent AX0 (shape ex_line) -> elem G i j k = nzero))
  /\ res_list3 (forward_diff ex_line 0 1)
     = Ok [[[int 1]]; [[int 2]]; [[int 3]]; [[int 0]]].
Proof.
  apply (forward_diff_spec ex_line AX0 1).
  - simpl. lia.
  - discriminate.
  - exact ex_line_finite.
Defined.

(** On the first two axes [backward_diff] is the normalised difference
    with the previous sample, and zero at index 0. *)
Lemma backward_diff_normalised (Xi : ndarray3) (ax : axis) (h : Qc) :
  ax <> AX2 ->
  (0 < extent ax (shape Xi))%nat ->
  h <> 0 ->
  finite3 Xi ->
  exists G,
    backward_diff Xi (axis_dim ax) h = Ok G /\
    shape G = shape Xi /\
    forall i j k, in_shape Xi i j k ->
      (forall c, coord ax i j k = S c ->
         elem G i j k
         = ndiv (nsub (elem Xi i j k) (elem_along ax Xi c i j k)) (Some h)) /\
      (coord ax i j k = 0%nat -> elem G i j k = nzero).
Proof.
  intros Hax Hn Hh Hfin.
  eexists. split; [by apply backward_diff_ok|]. split; [done|].
  intros i j k Hin. cbn [elem]. unfold bwd_elem.
  pose proof (coord_in_shape ax _ _ _ _ Hin) as Hc.
  destruct ax; [| |done]; (split; [intros c Hcs | intros Hc0]).
  all: try (rewrite Hcs in *; by rewrite bwd_idx_prev by lia).
  all: rewrite Hc0, bwd_idx_first, <- Hc0, elem_along_self;
       destruct (Hfin i j k Hin) as [q ->]; by apply ndiv_sub_self.
Qed.

(** On the third axis only the shifted term is divided by the voxel size. *)
Lemma backward_diff_axis2 (Xi : ndarray3) (h : Qc) :
  (0 < extent AX2 (shape Xi))%nat ->
  exists G,
    backward_diff Xi 2 h = Ok G /\
    shape G = shape Xi /\
    forall i j k, in_shape Xi i j k ->
      (forall c, k = S c ->
         elem G i j k = nsub (elem Xi i j k) (ndiv (elem Xi i j c) (Some h))) /\
      (k = 0%nat ->
         elem G i j k = nsub (elem Xi i j k) (ndiv (elem Xi i j k) (Some h))).
Proof.
  intros Hn. eexists. split; [by apply (backward_diff_ok Xi AX2)|]. split; [done|].
  intros i j k Hin. cbn [elem]. unfold bwd_elem. cbn [coord elem_along].
  pose proof (coord_in_shape AX2 _ _ _ _ Hin) as Hc. cbn [coord] in Hc.
  split.
  - intros c ->. by rewrite bwd_idx_prev by lia.
  - intros ->. by rewrite bwd_idx_first.
Qed.

(** C5 (the code departs from it on the third axis): on the line [1, 3]
    along axis 2 with voxel size 2 the normalised backward difference is
    [0, 1]; the code returns [1 - 1/2, 3 - 1/2]. *)
Theorem backward_diff_axis2_not_normalised :
  res_list3 (backward_diff ex_pair 2 (rat 2 1)) = Ok [[[frac 1 2; frac 5 2]]] /\
  res_list3 (backward_diff ex_pair 2 (rat 2 1))
  <> Ok [[[nzero; ndiv (nsub (int 3) (int 1)) (Some (rat 2 1))]]].
Proof.
  split.
  - apply (bool_decide_unpack _). vm_compute. exact I.
  - apply (bool_decide_unpack _). vm_compute. exact I.
Qed.

(** C6 (the code departs from it on the third axis): on the constant field 2
    along axis 2 with voxel size 2 the backward difference of the code is
    [1, 1], not zero; the forward difference is zero. *)
Theorem backward_diff_const_axis2_nonzero :
  res_list3 (backward_diff ex_const 2 (rat 2 1)) = Ok [[[int 1; int 1]]] /\
  res_list3 (forward_diff ex_const 2 (rat 2 1)) = Ok [[[nzero; nzero]]].
Proof.
  split; apply (bool_decide_unpack _); vm_compute; exact I.
Qed.

(** On a constant field the forward difference vanishes on every axis, and
    so does the backward difference on the first two. *)
Lemma forward_diff_const (Xi : ndarray3) (ax : axis) (h c : Qc) :
  (0 < extent ax (shape Xi))%nat ->
  h <> 0 ->
  (forall i j k, in_shape Xi i j k -> elem Xi i j k = Some c) ->
  exists G,
    forward_diff Xi (axis_dim ax) h = Ok G /\
    shape G = shape Xi /\
    forall i j k, in_shape Xi i j k -> elem G i j k = nzero.
Proof.
  intros Hn Hh Hc.
  eexists. split; [by apply forward_diff_ok|]. split; [done|].
  intros i j k Hin. cbn [elem]. unfold fwd_elem.
  pose proof (coord_in_shape ax _ _ _ _ Hin) as Hlt.
  apply fwd_idx_in in Hlt.
  rewrite (Hc i j k Hin).
  destruct Hin as (Hi & Hj & Hk).
  destruct ax; cbn [elem_along coord] in *;
    (rewrite Hc by (repeat split; assumption)); by apply ndiv_sub_self.
Qed.

Lemma backward_diff_const (Xi : ndarray3) (ax : axis) (h c : Qc) :
  ax <> AX2 ->
  (0 < extent ax (shape Xi))%nat ->
  h <> 0 ->
  (forall i j k, in_shape Xi i j k -> elem Xi i j k = Some c) ->
  exists G,
    backward_diff Xi (axis_dim ax) h = Ok G /\
    shape G = shape Xi /\
    forall i j k, in_shape Xi i j k -> elem G i j k = nzero.
Proof.
  intros Hax Hn Hh Hc.
  assert (Hfin : finite3 Xi) by (intros i j k Hin; exists c; auto).
  destruct (backward_diff_normalised Xi ax h Hax Hn Hh Hfin) as (G & HG & Hs & Hel).
  exists G. split; [done|]. split; [done|].
  intros i j k Hin. destruct (Hel i j k Hin) as [Hprev Hfirst].
  destruct (coord ax i j k) as [|c'] eqn:Hco; [by apply Hfirst|].
  rewrite (Hprev c' eq_refl), (Hc i j k Hin).
  pose proof (coord_in_shape ax _ _ _ _ Hin) as Hlt.
  destruct Hin as (Hi & Hj & Hk).
  destruct ax; [| |done]; cbn [elem_along coord] in *;
    (rewrite Hc by (repeat split; (assumption || lia))); by apply ndiv_sub_self.
Qed.

Lemma lincomb_ok (a b : Qc) (f g : ndarray3) :
  shape f = shape g ->
  lincomb a b f g
  = Ok (Arr3 (shape f)
             (fun i j k => nadd (nmul (Some a) (elem f i j k)) (nmul (Some b) (elem g i j k)))).
Proof.
  intros Hs. unfold lincomb, arr_add. cbn [arr_scale shape elem].
  by rewrite decide_True.
Qed.




(** ** Axis values outside {0, 1, 2} *)

Lemma shape_at_negative (Xi : ndarray3) (dim : Z) :
  (-3 <= dim < 0)%Z -> exists n, shape_at Xi dim = Ok n.
Proof.
  intros Hd. unfold shape_at, py_index.
  rewrite decide_False by lia. rewrite decide_True by lia. cbn [rbind]. eauto.
Qed.

Lemma shape_at_out_of_range (Xi : ndarray3) (dim : Z) :
  (dim < -3 \/ 2 < dim)%Z -> shape_at Xi dim = Err IndexError.
Proof.
  intros Hd. unfold shape_at, py_index.
  rewrite decide_False by lia. rewrite decide_False by lia. done.
Qed.

(** C8, as the code has it: for an axis outside {0, 1, 2} neither operator
    returns an array, and neither checks its argument.  An axis in
    {-3, -2, -1} passes the shape lookup, matches no branch and fails with
    UnboundLocalError at the return; any other axis fails with IndexError
    at the shape lookup. *)
Theorem diff_invalid_axis (Xi : ndarray3) (dim : Z) (h : Qc) :
  (dim < 0 \/ 2 < dim)%Z ->
  forward_diff Xi dim h = Err (axis_failure dim) /\
  backward_diff Xi dim h = Err (axis_failure dim) /\
  invalid_argument (axis_failure dim) = false.
Proof.
  intros Hd. unfold axis_failure.
  destruct (decide (-3 <= dim < 0)%Z) as [Hneg|Hout].
  - destruct (shape_at_negative Xi dim Hneg) as [n Hn].
    unfold forward_diff, backward_diff. rewrite Hn. cbn [rbind].
    rewrite !decide_False by lia. done.
  - unfold forward_diff, backward_diff.
    rewrite shape_at_out_of_range by lia. done.
Qed.

Lemma diff_invalid_axis_witness :
  forward_diff ex_line (-1) 1 = Err (axis_failure (-1)) /\
  backward_diff ex_line (-1) 1 = Err (axis_failure (-1)) /\
  invalid_argument (axis_failure (-1)) = false.
Proof. apply (diff_invalid_axis ex_line (-1) 1). lia. Defined.

(** C8 as stated fails: with axis -1 the call is not rejected as an invalid
    argument, it fails with UnboundLocalError. *)
Lemma diff_invalid_axis_not_rejected :
  forward_diff ex_line (-1) 1 = Err UnboundLocalError /\
  backward_diff ex_line (-1) 1 = Err UnboundLocalError /\
  ~ rejects_argument (forward_diff ex_line (-1) 1) /\
  ~ rejects_argument (backward_diff ex_line (-1) 1).
Proof.
  repeat split; try reflexivity.
  - intros (e & He & Hinv). vm_compute in He. by simplify_eq.
  - intros (e & He & Hinv). vm_compute in He. by simplify_eq.
Qed.

(** ** Stores: what a call reads, writes and creates *)

Section hoare.
Context (s0 : gmap nat obj).
Implicit Types (s : gmap nat obj) (own : list nat) (l : nat) (o : obj).

Lemma inv_frame own s : inv s0 own s -> frame s0 s.
Proof. by intros [? _]. Qed.

Lemma inv_start : inv s0 [] s0.
Proof. split; [done | constructor]. Qed.

Lemma inv_owned own s l : inv s0 own s -> l ∈ own -> fresh_post s0 l s.
Proof.
  intros [Hfr Hown] Hl. split; [done|].
  by apply (proj1 (List.Forall_forall _ _) Hown), list_elem_of_In.
Qed.

Lemma inv_insert_fresh own s l o :
  inv s0 own s -> s !! l = None -> inv s0 (l :: own) (<[l := o]> s).
Proof.
  intros [Hfr Hown] Hl. split.
  - intros l' o' Hl'. rewrite lookup_insert_ne; [by apply Hfr|].
    intros ->. apply Hfr in Hl'. congruence.
  - constructor.
    + split; [|by rewrite lookup_insert_eq].
      destruct (s0 !! l) as [o'|] eqn:E; [|done].
      apply Hfr in E. congruence.
    + eapply List.Forall_impl; [|exact Hown]. intros l' [Hn Hs]. split; [done|].
      destruct (decide (l = l')) as [->|Hne];
        [by rewrite lookup_insert_eq | by rewrite lookup_insert_ne].
Qed.

Lemma inv_insert_owned own s l o :
  inv s0 own s -> l ∈ own -> inv s0 own (<[l := o]> s).
Proof.
  intros Hinv Hl. destruct (inv_owned _ _ _ Hinv Hl) as (_ & Hnone & _).
  destruct Hinv as [Hfr Hown]. split.
  - intros l' o' Hl'. rewrite lookup_insert_ne; [by apply Hfr|]. congruence.
  - eapply List.Forall_impl; [|exact Hown]. intros l' [Hn Hs]. split; [done|].
    destruct (decide (l = l')) as [->|Hne];
      [by rewrite lookup_insert_eq | by rewrite lookup_insert_ne].
Qed.

Lemma triple_bind {A B : Type} P (m : prog A) (k : A -> prog B) Q R E :
  triple P m Q E -> (forall a, triple (Q a) (k a) R E) -> triple P (m ≫= k) R E.
Proof.
  intros Hm Hk s HP. specialize (Hm s HP).
  unfold mbind, prog_bind, pbind. destruct (m s) as [[a|e] s1]; [|done].
  by apply Hk.
Qed.

Lemma triple_post {A : Type} P (m : prog A) (Q Q' : A -> gmap nat obj -> Prop) E :
  triple P m Q E -> (forall a s, Q a s -> Q' a s) -> triple P m Q' E.
Proof.
  intros Hm HQ s HP. specialize (Hm s HP).
  destruct (m s) as [[a|e] s1]; auto.
Qed.

Lemma triple_ret {A : Type} (P : gmap nat obj -> Prop) (a : A) Q E :
  (forall s, P s -> Q a s) -> triple P (mret a) Q E.
Proof. intros HQ s HP. by apply HQ. Qed.

Lemma triple_lift {A : Type} own (r : result A) :
  triple (inv s0 own) (lift r) (fun _ => inv s0 own) (fun _ => frame s0).
Proof. intros s HP. unfold lift. destruct r; eauto using inv_frame. Qed.

Lemma triple_alloc own o :
  triple (inv s0 own) (alloc o) (fun l => inv s0 (l :: own)) (fun _ => frame s0).
Proof.
  intros s HP. unfold alloc. apply inv_insert_fresh; [done|].
  apply not_elem_of_dom, is_fresh.
Qed.

Lemma triple_store own l o :
  l ∈ own -> triple (inv s0 own) (store l o) (fun _ => inv s0 own) (fun _ => frame s0).
Proof. intros Hl s HP. unfold store. by apply inv_insert_owned. Qed.

Lemma triple_load_field own l :
  triple (inv s0 own) (load_field l) (fun _ => inv s0 own) (fun _ => frame s0).
Proof.
  intros s HP. unfold load_field.
  destruct (s !! l) as [[]|]; eauto using inv_frame.
Qed.

Lemma triple_load_vec own l :
  triple (inv s0 own) (load_vec l) (fun _ => inv s0 own) (fun _ => frame s0).
Proof.
  intros s HP. unfold load_vec.
  destruct (s !! l) as [[]|]; eauto using inv_frame.
Qed.

Lemma triple_load_mask own l :
  triple (inv s0 own) (load_mask l) (fun _ => inv s0 own) (fun _ => frame s0).
Proof.
  intros s HP. unfold load_mask.
  destruct (s !! l) as [[]|]; eauto using inv_frame.
Qed.

Lemma triple_load_idx own l :
  triple (inv s0 own) (load_idx l) (fun _ => inv s0 own) (fun _ => frame s0).
Proof.
  intros s HP. unfold load_idx.
  destruct (s !! l) as [[]|]; eauto using inv_frame.
Qed.

Lemma triple_load_vol own l :
  triple (inv s0 own) (load_vol l) (fun _ => inv s0 own) (fun _ => frame s0).
Proof.
  intros s HP. unfold load_vol.
  destruct (s !! l) as [[]|]; eauto using inv_frame.
Qed.
End hoare.

Create HintDb triples.
#[export] Hint Resolve triple_lift triple_alloc triple_load_field triple_load_vec
  triple_load_mask triple_load_idx triple_load_vol : triples.

(** One statement of a straight-line program. *)
Ltac hoare_step :=
  eapply triple_bind; [ solve [eauto with triples] | intros ?; cbv beta ].

Section numpy_operations.
Context (s0 : gmap nat obj).
Implicit Types (own : list nat).

Lemma triple_np_getmask own A mask c :
  triple (inv s0 own) (np_getmask A mask c) (fun l => inv s0 (l :: own)) (fun _ => frame s0).
Proof. unfold np_getmask. repeat hoare_step. eauto with triples. Qed.

Lemma triple_np_zeros_like own A :
  triple (inv s0 own) (np_zeros_like A) (fun l => inv s0 (l :: own)) (fun _ => frame s0).
Proof. unfold np_zeros_like. repeat hoare_step. eauto with triples. Qed.

Lemma triple_np_setmask own X mask c vals :
  X ∈ own ->
  triple (inv s0 own) (np_setmask X mask c vals) (fun _ => inv s0 own) (fun _ => frame s0).
Proof. intros HX. unfold np_setmask. repeat hoare_step. by apply triple_store. Qed.

Lemma triple_np_vbin own op a b :
  triple (inv s0 own) (np_vbin op a b) (fun l => inv s0 (l :: own)) (fun _ => frame s0).
Proof. unfold np_vbin. repeat hoare_step. eauto with triples. Qed.

Lemma triple_np_vsq own a :
  triple (inv s0 own) (np_vsq a) (fun l => inv s0 (l :: own)) (fun _ => frame s0).
Proof. unfold np_vsq. repeat hoare_step. eauto with triples. Qed.

Lemma triple_np_shape_at own Xi dim :
  triple (inv s0 own) (np_shape_at Xi dim) (fun _ => inv s0 own) (fun _ => frame s0).
Proof. unfold np_shape_at. repeat hoare_step. eauto with triples. Qed.

Lemma triple_np_arange own a b :
  triple (inv s0 own) (np_arange a b) (fun l => inv s0 (l :: own)) (fun _ => frame s0).
Proof. unfold np_arange. eauto with triples. Qed.

Lemma triple_np_append_r own s x :
  triple (inv s0 own) (np_append_r s x) (fun l => inv s0 (l :: own)) (fun _ => frame s0).
Proof. unfold np_append_r. repeat hoare_step. eauto with triples. Qed.

Lemma triple_np_append_l own x s :
  triple (inv s0 own) (np_append_l x s) (fun l => inv s0 (l :: own)) (fun _ => frame s0).
Proof. unfold np_append_l. repeat hoare_step. eauto with triples. Qed.

Lemma triple_np_take own ax shift Xi :
  triple (inv s0 own) (np_take ax shift Xi) (fun l => inv s0 (l :: own)) (fun _ => frame s0).
Proof. unfold np_take. repeat hoare_step. eauto with triples. Qed.

Lemma triple_np_sub own A B :
  triple (inv s0 own) (np_sub A B) (fun l => inv s0 (l :: own)) (fun _ => frame s0).
Proof. unfold np_sub. repeat hoare_step. eauto with triples. Qed.

Lemma triple_np_div_scalar own A h :
  triple (inv s0 own) (np_div_scalar A h) (fun l => inv s0 (l :: own)) (fun _ => frame s0).
Proof. unfold np_div_scalar. repeat hoare_step. eauto with triples. Qed.
End numpy_operations.

#[export] Hint Resolve triple_np_getmask triple_np_zeros_like triple_np_vbin
  triple_np_vsq triple_np_shape_at triple_np_arange triple_np_append_r
  triple_np_append_l triple_np_take triple_np_sub triple_np_div_scalar : triples.

Ltac numpy_step :=
  eapply triple_bind;
  [ first [ solve [eauto with triples]
          | apply triple_np_setmask; repeat constructor ]
  | intros ?; cbv beta ].

Lemma triple_fresh (s0 : gmap nat obj) (m : prog nat) :
  triple (inv s0 []) m (fresh_post s0) (fun _ => frame s0) -> forall s' r,
  m s0 = (r, s') -> frame s0 s' /\ (forall l, r = Ok l -> s0 !! l = None /\ is_Some (s' !! l)).
Proof.
  intros Ht s' r Hrun. specialize (Ht s0 (inv_start s0)). rewrite Hrun in Ht.
  destruct r as [l|e].
  - destruct Ht as (Hfr & Hn & Hs). split; [done|]. intros l' [= <-]. done.
  - split; [done|]. intros l' [=].
Qed.

Lemma x_manifold_h_triple (s0 : gmap nat obj) (D mask : nat) :
  triple (inv s0 []) (x_manifold_h D mask) (fresh_post s0) (fun _ => frame s0).
Proof.
  unfold x_manifold_h. repeat numpy_step.
  apply triple_ret. intros s1 Hinv. eapply inv_owned; [exact Hinv|]. repeat constructor.
Qed.

Lemma d_manifold_h_triple (s0 : gmap nat obj) (X mask : nat) :
  triple (inv s0 []) (d_manifold_h X mask) (fresh_post s0) (fun _ => frame s0).
Proof.
  unfold d_manifold_h. repeat numpy_step.
  apply triple_ret. intros s1 Hinv. eapply inv_owned; [exact Hinv|]. repeat constructor.
Qed.

Ltac diff_tail :=
  repeat numpy_step;
  eapply triple_post; [ solve [eauto with triples] | ];
  let H := fresh "Hinv" in
  intros ? ? H; eapply inv_owned; [exact H | solve [repeat constructor]].

Lemma forward_diff_h_triple (s0 : gmap nat obj) (Xi : nat) (dim : Z) (h : Qc) :
  triple (inv s0 []) (forward_diff_h Xi dim h) (fresh_post s0) (fun _ => frame s0).
Proof.
  unfold forward_diff_h. do 3 numpy_step.
  repeat case_decide; try diff_tail.
  intros s1 Hi. by apply inv_frame in Hi.
Qed.

Lemma backward_diff_h_triple (s0 : gmap nat obj) (Xi : nat) (dim : Z) (h : Qc) :
  triple (inv s0 []) (backward_diff_h Xi dim h) (fresh_post s0) (fun _ => frame s0).
Proof.
  unfold backward_diff_h. do 3 numpy_step.
  repeat case_decide; try diff_tail.
  intros s1 Hi. by apply inv_frame in Hi.
Qed.

(** C9: each of the four operations leaves every array of the store it is
    called in unchanged (its inputs among them) and returns an array that
    did not exist before the call, hence aliases none of them. *)
Theorem operations_leave_inputs_return_fresh :
  (forall D mask, leaves_inputs_returns_fresh (x_manifold_h D mask)) /\
  (forall X mask, leaves_inputs_returns_fresh (d_manifold_h X mask)) /\
  (forall Xi dim h, leaves_inputs_returns_fresh (forward_diff_h Xi dim h)) /\
  (forall Xi dim h, leaves_inputs_returns_fresh (backward_diff_h Xi dim h)).
Proof.
  unfold leaves_inputs_returns_fresh.
  split; [|split; [|split]]; intros;
    (eapply triple_fresh; [|eassumption]);
    auto using x_manifold_h_triple, d_manifold_h_triple,
      forward_diff_h_triple, backward_diff_h_triple.
Qed.

(** On the example store the two readings of [x_manifold] agree. *)
Lemma x_manifold_h_example :
  run_field (x_manifold_h 0 1) ex_store = x_manifold [ex_tensor; ex_tensor] [true; false].
Proof. apply (bool_decide_unpack _). vm_compute. exact I. Qed.

Lemma d_manifold_h_example :
  run_field (d_manifold_h 0 1) ex_store = d_manifold [ex_tensor; ex_tensor] [true; false].
Proof. apply (bool_decide_unpack _). vm_compute. exact I. Qed.

Lemma operations_leave_inputs_return_fresh_witness :
  (forall l o, ex_store !! l = Some o -> (x_manifold_h 0 1 ex_store).2 !! l = Some o) /\
  (forall l, (x_manifold_h 0 1 ex_store).1 = Ok l ->
     ex_store !! l = None /\ is_Some ((x_manifold_h 0 1 ex_store).2 !! l)).
Proof.
  apply (proj1 operations_leave_inputs_return_fresh 0%nat 1%nat ex_store).
  apply surjective_pairing.
Defined.

(** ** The store reading computes what the value reading computes *)

Section contents.
Context (s0 : gmap nat obj) (E : pyerr -> gmap nat obj -> Prop).
Implicit Types (s : gmap nat obj) (facts : list (nat * obj)) (l : nat) (o : obj).

Lemma cinv_start : cinv s0 [] s0.
Proof. split; [done|]. split; constructor. Qed.

Lemma cinv_lookup facts s l o : cinv s0 facts s -> known s0 facts l o -> s !! l = Some o.
Proof.
  intros (Hfr & _ & Hall) [Hin|Hin]; [by apply Hfr|].
  apply list_elem_of_In in Hin.
  by destruct (proj1 (List.Forall_forall _ _) Hall _ Hin) as [_ ?].
Qed.

Lemma cinv_fresh facts s l o :
  cinv s0 facts s -> s !! l = None -> cinv s0 ((l, o) :: facts) (<[l := o]> s).
Proof.
  intros (Hfr & Hnd & Hall) Hl. split; [|split].
  - intros l' o' Hl'. rewrite lookup_insert_ne; [by apply Hfr|].
    intros ->. apply Hfr in Hl'. congruence.
  - csimpl. constructor; [|done].
    intros Hin. apply list_elem_of_fmap in Hin as ([l' o'] & Heq & Hin). simpl in Heq. subst l'.
    apply list_elem_of_In in Hin.
    destruct (proj1 (List.Forall_forall _ _) Hall _ Hin) as [_ Hs]. simpl in Hs. congruence.
  - constructor.
    + simpl. split; [|by rewrite lookup_insert_eq].
      destruct (s0 !! l) as [o'|] eqn:Hl0; [|done]. apply Hfr in Hl0. congruence.
    + eapply List.Forall_impl; [|exact Hall]. intros [l' o'] [Hn Hs]. simpl in *.
      split; [done|]. rewrite lookup_insert_ne; [done|]. congruence.
Qed.

Lemma cinv_update facts s i l o o' :
  cinv s0 facts s -> facts !! i = Some (l, o) ->
  cinv s0 (<[i := (l, o')]> facts) (<[l := o']> s).
Proof.
  intros (Hfr & Hnd & Hall) Hi.
  assert (Hkeys : (<[i := (l, o')]> facts).*1 = facts.*1).
  { rewrite list_fmap_insert. simpl. apply list_insert_id.
    by rewrite list_lookup_fmap, Hi. }
  assert (Hl0 : s0 !! l = None).
  { apply list_elem_of_lookup_2, list_elem_of_In in Hi.
    by destruct (proj1 (List.Forall_forall _ _) Hall _ Hi) as [? _]. }
  split; [|split].
  - intros l' o'' Hl'. rewrite lookup_insert_ne; [by apply Hfr|]. congruence.
  - by rewrite Hkeys.
  - apply Forall_lookup_2. intros j [l' o''] Hj.
    destruct (decide (i = j)) as [<-|Hne].
    + rewrite list_lookup_insert_eq in Hj by (by eapply lookup_lt_Some).
      simplify_eq/=. by rewrite lookup_insert_eq.
    + rewrite list_lookup_insert_ne in Hj by done.
      pose proof (Forall_lookup_1 _ _ _ _ Hall Hj) as [Hn Hs]. simpl in *.
      split; [done|]. rewrite lookup_insert_ne; [done|].
      intros <-. apply Hne. eapply NoDup_lookup; [exact Hnd| |].
      * by rewrite list_lookup_fmap, Hi.
      * by rewrite list_lookup_fmap, Hj.
Qed.

Lemma triple_pure {A : Type} (phi : Prop) (P : gmap nat obj -> Prop) (m : prog A) Q :
  (phi -> triple P m Q E) -> triple (fun s => phi /\ P s) m Q E.
Proof. intros Hm s [Hphi HP]. by apply Hm. Qed.

Lemma run_lift {A : Type} facts (r : result A) (a : A) :
  r = Ok a ->
  triple (cinv s0 facts) (lift r) (fun a' s => a' = a /\ cinv s0 facts s) E.
Proof. intros -> s HP. by split. Qed.

Lemma run_alloc facts o :
  triple (cinv s0 facts) (alloc o) (fun l => cinv s0 ((l, o) :: facts)) E.
Proof.
  intros s HP. unfold alloc. apply cinv_fresh; [done|].
  apply not_elem_of_dom, is_fresh.
Qed.

Lemma run_store facts i l o o' :
  facts !! i = Some (l, o) ->
  triple (cinv s0 facts) (store l o') (fun _ => cinv s0 (<[i := (l, o')]> facts))
         E.
Proof. intros Hi s HP. unfold store. by eapply cinv_update. Qed.

Lemma run_load_field facts l a :
  known s0 facts l (OField a) ->
  triple (cinv s0 facts) (load_field l) (fun a' s => a' = a /\ cinv s0 facts s)
         E.
Proof. intros Hk s HP. unfold load_field. by rewrite (cinv_lookup _ _ _ _ HP Hk). Qed.

Lemma run_load_vec facts l v :
  known s0 facts l (OVec v) ->
  triple (cinv s0 facts) (load_vec l) (fun v' s => v' = v /\ cinv s0 facts s)
         E.
Proof. intros Hk s HP. unfold load_vec. by rewrite (cinv_lookup _ _ _ _ HP Hk). Qed.

Lemma run_load_mask facts l m :
  known s0 facts l (OMask m) ->
  triple (cinv s0 facts) (load_mask l) (fun m' s => m' = m /\ cinv s0 facts s)
         E.
Proof. intros Hk s HP. unfold load_mask. by rewrite (cinv_lookup _ _ _ _ HP Hk). Qed.

Lemma run_load_idx facts l i :
  known s0 facts l (OIdx i) ->
  triple (cinv s0 facts) (load_idx l) (fun i' s => i' = i /\ cinv s0 facts s)
         E.
Proof. intros Hk s HP. unfold load_idx. by rewrite (cinv_lookup _ _ _ _ HP Hk). Qed.

Lemma run_load_vol facts l a :
  known s0 facts l (OVol a) ->
  triple (cinv s0 facts) (load_vol l) (fun a' s => a' = a /\ cinv s0 facts s)
         E.
Proof. intros Hk s HP. unfold load_vol. by rewrite (cinv_lookup _ _ _ _ HP Hk). Qed.
End contents.

(** A statement whose operands are known; the value it reads replaces the
    bound variable. *)
Ltac run_step rule :=
  eapply triple_bind;
  [ eapply rule; eassumption
  | intros ?; cbv beta; apply triple_pure; intros -> ].

Section numpy_values.
Context (s0 : gmap nat obj) (E : pyerr -> gmap nat obj -> Prop).
Implicit Types (facts : list (nat * obj)).

Lemma run_np_getmask facts A mask c a m v :
  known s0 facts A (OField a) -> known s0 facts mask (OMask m) ->
  getmask a m c = Ok v ->
  triple (cinv s0 facts) (np_getmask A mask c)
         (fun l => cinv s0 ((l, OVec v) :: facts)) E.
Proof.
  intros HA Hm Hv. unfold np_getmask.
  run_step run_load_field. run_step run_load_mask. run_step @run_lift.
  apply run_alloc.
Qed.

Lemma run_np_zeros_like facts A a :
  known s0 facts A (OField a) ->
  triple (cinv s0 facts) (np_zeros_like A)
         (fun l => cinv s0 ((l, OField (np_zeros (length a))) :: facts)) E.
Proof. intros HA. unfold np_zeros_like. run_step run_load_field. apply run_alloc. Qed.

Lemma run_np_setmask facts i X mask c vals x m v x' :
  facts !! i = Some (X, OField x) ->
  known s0 facts mask (OMask m) -> known s0 facts vals (OVec v) ->
  setmask x m c v = Ok x' ->
  triple (cinv s0 facts) (np_setmask X mask c vals)
         (fun _ => cinv s0 (<[i := (X, OField x')]> facts)) E.
Proof.
  intros Hi Hm Hv Hx'. unfold np_setmask.
  assert (HX : known s0 facts X (OField x)) by (right; by eapply list_elem_of_lookup_2).
  run_step run_load_field. run_step run_load_mask. run_step run_load_vec.
  run_step @run_lift. by eapply run_store.
Qed.

Lemma run_np_vbin facts op a b va vb :
  known s0 facts a (OVec va) -> known s0 facts b (OVec vb) ->
  triple (cinv s0 facts) (np_vbin op a b)
         (fun l => cinv s0 ((l, OVec (op va vb)) :: facts)) E.
Proof.
  intros Ha Hb. unfold np_vbin.
  run_step run_load_vec. run_step run_load_vec. apply run_alloc.
Qed.

Lemma run_np_vsq facts a va :
  known s0 facts a (OVec va) ->
  triple (cinv s0 facts) (np_vsq a)
         (fun l => cinv s0 ((l, OVec (vsq va)) :: facts)) E.
Proof. intros Ha. unfold np_vsq. run_step run_load_vec. apply run_alloc. Qed.

Lemma run_np_shape_at facts Xi dim a n :
  known s0 facts Xi (OVol a) -> shape_at a dim = Ok n ->
  triple (cinv s0 facts) (np_shape_at Xi dim)
         (fun n' s => n' = n /\ cinv s0 facts s) E.
Proof.
  intros HXi Hn. unfold np_shape_at. run_step run_load_vol. by apply run_lift.
Qed.

Lemma run_np_append_r facts sh x i :
  known s0 facts sh (OIdx i) ->
  triple (cinv s0 facts) (np_append_r sh x)
         (fun l => cinv s0 ((l, OIdx (i ++ [x])) :: facts)) E.
Proof. intros Hs. unfold np_append_r. run_step run_load_idx. apply run_alloc. Qed.

Lemma run_np_append_l facts x sh i :
  known s0 facts sh (OIdx i) ->
  triple (cinv s0 facts) (np_append_l x sh)
         (fun l => cinv s0 ((l, OIdx (x :: i)) :: facts)) E.
Proof. intros Hs. unfold np_append_l. run_step run_load_idx. apply run_alloc. Qed.

Lemma run_np_take facts ax sh Xi i a g :
  known s0 facts sh (OIdx i) -> known s0 facts Xi (OVol a) ->
  take ax i a = Ok g ->
  triple (cinv s0 facts) (np_take ax sh Xi)
         (fun l => cinv s0 ((l, OVol g) :: facts)) E.
Proof.
  intros Hs HXi Hg. unfold np_take.
  run_step run_load_idx. run_step run_load_vol. run_step @run_lift. apply run_alloc.
Qed.

Lemma run_np_sub facts A B a b d :
  known s0 facts A (OVol a) -> known s0 facts B (OVol b) ->
  arr_sub a b = Ok d ->
  triple (cinv s0 facts) (np_sub A B)
         (fun l => cinv s0 ((l, OVol d) :: facts)) E.
Proof.
  intros HA HB Hd. unfold np_sub.
  run_step run_load_vol. run_step run_load_vol. run_step @run_lift. apply run_alloc.
Qed.

Lemma run_np_div_scalar facts A a h :
  known s0 facts A (OVol a) ->
  triple (cinv s0 facts) (np_div_scalar A h)
         (fun l => cinv s0 ((l, OVol (arr_div a h)) :: facts)) E.
Proof. intros HA. unfold np_div_scalar. run_step run_load_vol. apply run_alloc. Qed.
End numpy_values.

Lemma lookup_here {A : Type} (x : A) (l : list A) : (x :: l) !! 0%nat = Some x.
Proof. reflexivity. Qed.

Lemma lookup_further {A : Type} (x y : A) (l : list A) (i : nat) :
  l !! i = Some x -> (y :: l) !! S i = Some x.
Proof. by intros. Qed.

Lemma insert_here {A : Type} (x y : A) (l : list A) : <[0%nat := x]> (y :: l) = x :: l.
Proof. reflexivity. Qed.

Lemma insert_further {A : Type} (x y : A) (l : list A) (i : nat) :
  <[S i := x]> (y :: l) = y :: <[i := x]> l.
Proof. reflexivity. Qed.

Ltac known_tac :=
  first [ left; eassumption
        | right; solve [repeat first [apply list_elem_of_here | apply list_elem_of_further]] ].

Ltac index_tac := solve [repeat first [eapply lookup_here | eapply lookup_further]].

Ltac getmask_val :=
  first [ apply getmask_masked; assumption | apply getmask_ok; assumption ].

(** One statement of [x_manifold_h] or [d_manifold_h]. *)
Ltac manifold_step :=
  eapply triple_bind;
  [ first
      [ eapply run_np_getmask; [known_tac | known_tac | getmask_val]
      | eapply run_np_vbin; [known_tac | known_tac]
      | eapply run_np_vsq; known_tac
      | eapply run_np_zeros_like; known_tac
      | eapply run_np_setmask;
        [index_tac | known_tac | known_tac | apply setmask_masked; assumption] ]
  | intros ?; cbv beta; rewrite ?insert_further, ?insert_here; vec_simpl;
    cbn [getc setc r0 r1 r2 r3 r4 r5] ].

Ltac manifold_done :=
  let H := fresh "Hinv" in
  apply triple_ret; intros ? H; eapply cinv_lookup; [exact H|]; right;
  repeat first [apply list_elem_of_here | apply list_elem_of_further].

Lemma x_manifold_h_run (s0 : gmap nat obj) (D mask : nat) (d : list row) (m : list bool) :
  s0 !! D = Some (OField d) -> s0 !! mask = Some (OMask m) ->
  length m = length d ->
  triple (cinv s0 []) (x_manifold_h D mask)
         (fun l s => s !! l = Some (OField (masked iwasawa m d))) (fun _ _ => False).
Proof.
  intros HD Hm Hlen. unfold x_manifold_h.
  do 7 manifold_step.
  rewrite (np_zeros_masked m d) by done.
  repeat manifold_step.
  manifold_done.
Qed.

Lemma d_manifold_h_run (s0 : gmap nat obj) (X mask : nat) (x : list row) (m : list bool) :
  s0 !! X = Some (OField x) -> s0 !! mask = Some (OMask m) ->
  length m = length x ->
  triple (cinv s0 []) (d_manifold_h X mask)
         (fun l s => s !! l = Some (OField (masked tensor_of m x))) (fun _ _ => False).
Proof.
  intros HX Hm Hlen. unfold d_manifold_h.
  do 7 manifold_step.
  rewrite (np_zeros_masked m x) by done.
  repeat manifold_step.
  manifold_done.
Qed.

(** With a mask that does not fit, the first statement raises. *)
Lemma manifold_h_mismatch (s : gmap nat obj) (D mask : nat) (d : list row) (m : list bool) :
  s !! D = Some (OField d) -> s !! mask = Some (OMask m) ->
  length m <> length d ->
  x_manifold_h D mask s = (Err IndexError, s) /\
  d_manifold_h D mask s = (Err IndexError, s).
Proof.
  intros HD Hm Hlen.
  unfold x_manifold_h, d_manifold_h, np_getmask, mbind, prog_bind, pbind,
    load_field, load_mask, lift, getmask.
  rewrite HD, Hm. by rewrite decide_False.
Qed.

(** The store reading of the two maps returns the array the value reading
    computes, and raises where it raises. *)
Lemma x_manifold_h_refines (s : gmap nat obj) (D mask : nat) (d : list row) (m : list bool) :
  s !! D = Some (OField d) -> s !! mask = Some (OMask m) ->
  run_field (x_manifold_h D mask) s = x_manifold d m.
Proof.
  intros HD Hm. unfold run_field.
  destruct (decide (length m = length d)) as [Hlen|Hlen].
  - pose proof (x_manifold_h_run s D mask d m HD Hm Hlen s (cinv_start s)) as Hrun.
    destruct (x_manifold_h D mask s) as [[l|e] s']; [|done].
    by rewrite Hrun, x_manifold_masked.
  - destruct (manifold_h_mismatch s D mask d m HD Hm Hlen) as [-> _].
    unfold x_manifold, getmask. by rewrite decide_False.
Qed.

Lemma d_manifold_h_refines (s : gmap nat obj) (X mask : nat) (x : list row) (m : list bool) :
  s !! X = Some (OField x) -> s !! mask = Some (OMask m) ->
  run_field (d_manifold_h X mask) s = d_manifold x m.
Proof.
  intros HX Hm. unfold run_field.
  destruct (decide (length m = length x)) as [Hlen|Hlen].
  - pose proof (d_manifold_h_run s X mask x m HX Hm Hlen s (cinv_start s)) as Hrun.
    destruct (d_manifold_h X mask s) as [[l|e] s']; [|done].
    by rewrite Hrun, d_manifold_masked_plain.
  - destruct (manifold_h_mismatch s X mask x m HX Hm Hlen) as [_ ->].
    unfold d_manifold, getmask. by rewrite decide_False.
Qed.

Section failing_statements.
Context (s0 : gmap nat obj) (E : pyerr -> gmap nat obj -> Prop).
Implicit Types (facts : list (nat * obj)).

Lemma triple_false {A : Type} (m : prog A) (Q : A -> gmap nat obj -> Prop) :
  triple (fun _ => False) m Q E.
Proof. intros s []. Qed.

Lemma run_lift_err {A : Type} facts (r : result A) e (Q : A -> gmap nat obj -> Prop) :
  r = Err e -> (forall s, E e s) -> triple (cinv s0 facts) (lift r) Q E.
Proof. intros -> HE s HP. apply HE. Qed.

Lemma run_np_arange facts a b :
  triple (cinv s0 facts) (np_arange a b)
         (fun l => cinv s0 ((l, OIdx (arange a b)) :: facts)) E.
Proof. apply run_alloc. Qed.

Lemma run_np_shape_at_err facts Xi dim a e (Q : nat -> gmap nat obj -> Prop) :
  known s0 facts Xi (OVol a) -> shape_at a dim = Err e -> (forall s, E e s) ->
  triple (cinv s0 facts) (np_shape_at Xi dim) Q E.
Proof.
  intros HXi Hn HE. unfold np_shape_at. run_step run_load_vol. by eapply run_lift_err.
Qed.

Lemma run_np_take_err facts ax sh Xi i a e (Q : nat -> gmap nat obj -> Prop) :
  known s0 facts sh (OIdx i) -> known s0 facts Xi (OVol a) ->
  take ax i a = Err e -> (forall s, E e s) ->
  triple (cinv s0 facts) (np_take ax sh Xi) Q E.
Proof.
  intros Hs HXi Hg HE. unfold np_take.
  run_step run_load_idx. run_step run_load_vol.
  eapply triple_bind; [by eapply run_lift_err | intros ?; apply triple_false].
Qed.

Lemma run_np_sub_err facts A B a b e (Q : nat -> gmap nat obj -> Prop) :
  known s0 facts A (OVol a) -> known s0 facts B (OVol b) ->
  arr_sub a b = Err e -> (forall s, E e s) ->
  triple (cinv s0 facts) (np_sub A B) Q E.
Proof.
  intros HA HB Hd HE. unfold np_sub.
  run_step run_load_vol. run_step run_load_vol.
  eapply triple_bind; [by eapply run_lift_err | intros ?; apply triple_false].
Qed.
End failing_statements.

(** A statement that raises ends the run. *)
Ltac fail_step rule :=
  eapply triple_bind with (Q := fun _ _ => False);
  [ eapply rule; first [known_tac | eassumption | done]
  | intros ?; apply triple_false ].

Ltac vol_step rule :=
  eapply triple_bind;
  [ eapply rule; first [known_tac | eassumption]
  | intros ?; cbv beta ].

Ltac vol_done :=
  let H := fresh "Hinv" in
  intros ? ? H; eexists; split; [reflexivity|];
  eapply cinv_lookup; [exact H|]; right; apply list_elem_of_here.

Ltac forward_branch a :=
  let g := fresh "g" in let d := fresh "d" in
  destruct (take _ _ a) as [g|?] eqn:?; cbn [rbind];
  [| by fail_step run_np_take_err ];
  vol_step run_np_take;
  destruct (arr_sub g a) as [d|?] eqn:?; cbn [rbind];
  [| by fail_step run_np_sub_err ];
  vol_step run_np_sub;
  eapply triple_post; [eapply run_np_div_scalar; known_tac | vol_done].

Lemma forward_diff_h_run (s0 : gmap nat obj) (Xi : nat) (dim : Z) (h : Qc) (a : ndarray3) :
  s0 !! Xi = Some (OVol a) ->
  triple (cinv s0 []) (forward_diff_h Xi dim h)
         (fun l s => exists G, forward_diff a dim h = Ok G /\ s !! l = Some (OVol G))
         (fun e _ => forward_diff a dim h = Err e).
Proof.
  intros HXi. unfold forward_diff_h, forward_diff.
  destruct (shape_at a dim) as [n|e] eqn:Hn; cbn [rbind];
    [| by fail_step run_np_shape_at_err ].
  eapply triple_bind;
    [ eapply run_np_shape_at; [known_tac | exact Hn]
    | intros ?; cbv beta; apply triple_pure; intros -> ].
  vol_step run_np_arange. vol_step run_np_append_r.
  repeat case_decide; try forward_branch a.
  eapply run_lift_err; [reflexivity | done].
Qed.

Ltac backward_branch a :=
  let g := fresh "g" in let d := fresh "d" in
  destruct (take _ _ a) as [g|?] eqn:?; cbn [rbind];
  [| by fail_step run_np_take_err ];
  vol_step run_np_take;
  destruct (arr_sub a g) as [d|?] eqn:?; cbn [rbind];
  [| by fail_step run_np_sub_err ];
  vol_step run_np_sub;
  eapply triple_post; [eapply run_np_div_scalar; known_tac | vol_done].

Lemma backward_diff_h_run (s0 : gmap nat obj) (Xi : nat) (dim : Z) (h : Qc) (a : ndarray3) :
  s0 !! Xi = Some (OVol a) ->
  triple (cinv s0 []) (backward_diff_h Xi dim h)
         (fun l s => exists G, backward_diff a dim h = Ok G /\ s !! l = Some (OVol G))
         (fun e _ => backward_diff a dim h = Err e).
Proof.
  intros HXi. unfold backward_diff_h, backward_diff.
  destruct (shape_at a dim) as [n|e] eqn:Hn; cbn [rbind];
    [| by fail_step run_np_shape_at_err ].
  eapply triple_bind;
    [ eapply run_np_shape_at; [known_tac | exact Hn]
    | intros ?; cbv beta; apply triple_pure; intros -> ].
  vol_step run_np_arange. vol_step run_np_append_l.
  repeat case_decide; try backward_branch a.
  - destruct (take AX2 _ a) as [g|?] eqn:Hg; cbn [rbind];
      [| by fail_step run_np_take_err ].
    vol_step run_np_take. vol_step run_np_div_scalar.
    destruct (arr_sub a (arr_div g (Some h))) as [d|?] eqn:Hd.
    + eapply triple_post;
        [ eapply run_np_sub; [known_tac | known_tac | exact Hd] | vol_done ].
    + eapply run_np_sub_err; [known_tac | known_tac | exact Hd | done].
  - eapply run_lift_err; [reflexivity | done].
Qed.

Lemma run_vol_refines (s : gmap nat obj) (m : prog nat) (r : result ndarray3) :
  triple (cinv s []) m
         (fun l s' => exists G, r = Ok G /\ s' !! l = Some (OVol G))
         (fun e _ => r = Err e) ->
  run_vol m s = r.
Proof.
  intros Ht. specialize (Ht s (cinv_start s)). unfold run_vol.
  destruct (m s) as [[l|e] s']; [|done].
  destruct Ht as (G & -> & ->). done.
Qed.

(** The store reading of the two difference operators returns the array
    the value reading computes, and raises what it raises. *)
Lemma forward_diff_h_refines (s : gmap nat obj) (Xi : nat) (dim : Z) (h : Qc) (a : ndarray3) :
  s !! Xi = Some (OVol a) ->
  run_vol (forward_diff_h Xi dim h) s = forward_diff a dim h.
Proof. intros HXi. by apply run_vol_refines, forward_diff_h_run. Qed.

Lemma backward_diff_h_refines (s : gmap nat obj) (Xi : nat) (dim : Z) (h : Qc) (a : ndarray3) :
  s !! Xi = Some (OVol a) ->
  run_vol (backward_diff_h Xi dim h) s = backward_diff a dim h.
Proof. intros HXi. by apply run_vol_refines, backward_diff_h_run. Qed.

(** * Further properties of the four functions *)

(** ** Manifold maps *)

(** X2: [d_manifold] returns an array of the shape of its input which holds,
    at every selected voxel, Dxx = X1, Dxy = X1*X4, Dyy = X2 + X1*X4^2,
    Dxz = X1*X5, Dyz = X1*X4*X5 + X2*X6, Dzz = X3 + X1*X5^2 + X2*X6^2. *)
Theorem d_manifold_formulas (X : list row) (mask : list bool) (i : nat) (x : row) :
  length mask = length X ->
  mask !! i = Some true ->
  X !! i = Some x ->
  exists D d,
    d_manifold X mask = Ok D /\ length D = length X /\ D !! i = Some d /\
    r0 d = r0 x /\
    r1 d = nmul (r0 x) (r3 x) /\
    r2 d = nadd (r1 x) (nmul (r0 x) (nsq (r3 x))) /\
    r3 d = nmul (r0 x) (r4 x) /\
    r4 d = nadd (nmul (nmul (r0 x) (r3 x)) (r4 x)) (nmul (r1 x) (r5 x)) /\
    r5 d = nadd (nadd (r2 x) (nmul (r0 x) (nsq (r4 x)))) (nmul (r1 x) (nsq (r5 x))).
Proof.
  intros Hlen Hm Hx.
  exists (masked tensor_of mask X), (tensor_of x).
  split; [by apply d_manifold_masked_plain|].
  split; [by apply masked_length|].
  split; [by apply masked_lookup_true|].
  repeat split.
Qed.

Lemma d_manifold_formulas_witness :
  exists D d,
    d_manifold [ex_coords] [true] = Ok D /\ length D = length [ex_coords] /\
    D !! 0%nat = Some d /\
    r0 d = r0 ex_coords /\
    r1 d = nmul (r0 ex_coords) (r3 ex_coords) /\
    r2 d = nadd (r1 ex_coords) (nmul (r0 ex_coords) (nsq (r3 ex_coords))) /\
    r3 d = nmul (r0 ex_coords) (r4 ex_coords) /\
    r4 d = nadd (nmul (nmul (r0 ex_coords) (r3 ex_coords)) (r4 ex_coords))
                (nmul (r1 ex_coords) (r5 ex_coords)) /\
    r5 d = nadd (nadd (r2 ex_coords) (nmul (r0 ex_coords) (nsq (r4 ex_coords))))
                (nmul (r1 ex_coords) (nsq (r5 ex_coords))).
Proof. apply (d_manifold_formulas [ex_coords] [true] 0 ex_coords); reflexivity. Defined.

(** X3: the maps work voxel by voxel: what they return at a voxel depends
    only on the mask and on the input at that voxel. *)
Theorem manifold_voxelwise (A B : list row) (mask : list bool) (i : nat) :
  length mask = length A ->
  length mask = length B ->
  A !! i = B !! i ->
  exists XA XB DA DB,
    x_manifold A mask = Ok XA /\ x_manifold B mask = Ok XB /\ XA !! i = XB !! i /\
    d_manifold A mask = Ok DA /\ d_manifold B mask = Ok DB /\ DA !! i = DB !! i.
Proof.
  intros HA HB Hi.
  exists (masked iwasawa mask A), (masked iwasawa mask B),
         (masked tensor_of mask A), (masked tensor_of mask B).
  rewrite !x_manifold_masked, !d_manifold_masked_plain by done.
  unfold masked. rewrite !lookup_zip_with, Hi. done.
Qed.

Lemma manifold_voxelwise_witness :
  exists XA XB DA DB,
    x_manifold [ex_tensor; ex_coords] [true; true] = Ok XA /\
    x_manifold [ex_tensor; ex_tensor] [true; true] = Ok XB /\
    XA !! 0%nat = XB !! 0%nat /\
    d_manifold [ex_tensor; ex_coords] [true; true] = Ok DA /\
    d_manifold [ex_tensor; ex_tensor] [true; true] = Ok DB /\
    DA !! 0%nat = DB !! 0%nat.
Proof.
  apply (manifold_voxelwise [ex_tensor; ex_coords] [ex_tensor; ex_tensor] [true; true] 0);
    reflexivity.
Defined.

Lemma x_manifold_inv (D X : list row) (mask : list bool) :
  x_manifold D mask = Ok X -> length mask = length D /\ X = masked iwasawa mask D.
Proof.
  intros HX. destruct (decide (length mask = length D)) as [Hlen|Hlen].
  - rewrite x_manifold_masked in HX by done. by simplify_eq.
  - unfold x_manifold, getmask in HX. rewrite decide_False in HX by done. done.
Qed.

Lemma x_manifold_row (D X : list row) (mask : list bool) (i : nat) (x : row) :
  x_manifold D mask = Ok X -> mask !! i = Some true -> X !! i = Some x ->
  exists d, D !! i = Some d /\ x = iwasawa d.
Proof.
  intros HX Hm Hx. apply x_manifold_inv in HX as [Hlen ->].
  destruct (D !! i) as [d|] eqn:Hd.
  - exists d. split; [done|].
    rewrite (masked_lookup_true _ _ _ _ _ Hm Hd) in Hx. by simplify_eq.
  - apply lookup_lt_Some in Hm. apply lookup_ge_None in Hd. lia.
Qed.

Lemma ndiv_zero (a : num) : ndiv a (Some 0) = None.
Proof. destruct a; [|done]. unfold ndiv. by rewrite decide_True. Qed.

Lemma nsub_none (a : num) : nsub a None = None.
Proof. by destruct a. Qed.

(** X4: no check and no exception on a singular tensor: where the first
    pivot X1 = Dxx comes out as 0, the five other coordinates of that voxel
    have no finite value. *)
Theorem x_manifold_zero_first_pivot (D X : list row) (mask : list bool) (i : nat) (x : row) :
  x_manifold D mask = Ok X ->
  mask !! i = Some true ->
  X !! i = Some x ->
  r0 x = Some 0 ->
  r1 x = None /\ r2 x = None /\ r3 x = None /\ r4 x = None /\ r5 x = None.
Proof.
  intros HX Hm Hx H0.
  destruct (x_manifold_row D X mask i x HX Hm Hx) as (d & _ & ->).
  destruct d as [dxx dxy dyy dxz dyz dzz]. unfold iwasawa in *. cbn [r0 r1 r2 r3 r4 r5] in *.
  subst dxx. unfold ndiv, nsub, nmul, nsq.
  destruct dxy, dyy, dxz, dyz, dzz; rewrite ?decide_True by done; done.
Qed.

Lemma x_manifold_zero_first_pivot_witness :
  let x := Row (Some 0) None None None None None in
  r1 x = None /\ r2 x = None /\ r3 x = None /\ r4 x = None /\ r5 x = None.
Proof.
  apply (x_manifold_zero_first_pivot
           [Row (int 0) (int 1) (int 1) (int 1) (int 1) (int 1)]
           [Row (Some 0) None None None None None] [true] 0).
  - apply (bool_decide_unpack _). vm_compute. exact I.
  - reflexivity.
  - reflexivity.
  - reflexivity.
Defined.

(** X5: likewise, where the second pivot X2 comes out as 0, the coordinates
    X6 and X3 of that voxel have no finite value. *)
Theorem x_manifold_zero_second_pivot (D X : list row) (mask : list bool) (i : nat) (x : row) :
  x_manifold D mask = Ok X ->
  mask !! i = Some true ->
  X !! i = Some x ->
  r1 x = Some 0 ->
  r5 x = None /\ r2 x = None.
Proof.
  intros HX Hm Hx H0.
  destruct (x_manifold_row D X mask i x HX Hm Hx) as (d & _ & ->).
  unfold iwasawa in *. cbn [r0 r1 r2 r3 r4 r5] in *.
  rewrite H0, ndiv_zero. cbn [nsq nmul]. by rewrite nsub_none.
Qed.

Lemma x_manifold_zero_second_pivot_witness :
  let x := Row (int 1) (Some 0) None (int 1) (int 0) None in
  r5 x = None /\ r2 x = None.
Proof.
  apply (x_manifold_zero_second_pivot
           [Row (int 1) (int 1) (int 1) (int 0) (int 0) (int 1)]
           [Row (int 1) (Some 0) None (int 1) (int 0) None] [true] 0).
  - apply (bool_decide_unpack _). vm_compute. exact I.
  - reflexivity.
  - reflexivity.
  - reflexivity.
Defined.

Lemma finite_zero_row : finite_row zero_row.
Proof. repeat split; by exists 0. Qed.

Lemma finite_tensor_of (x : row) : finite_row x -> finite_row (tensor_of x).
Proof.
  destruct x as [x1 x2 x3 x4 x5 x6]. intros Hf. num_cases.
  repeat split; eexists; reflexivity.
Qed.

(** X6: [d_manifold] only adds and multiplies: from coordinates that are
    finite at the selected voxels it returns a tensor array that is finite
    at every voxel. *)
Theorem d_manifold_finite (X : list row) (mask : list bool) :
  length mask = length X ->
  (forall i x, mask !! i = Some true -> X !! i = Some x -> finite_row x) ->
  exists D, d_manifold X mask = Ok D /\ Forall finite_row D.
Proof.
  intros Hlen Hfin. exists (masked tensor_of mask X).
  split; [by apply d_manifold_masked_plain|].
  apply Forall_lookup. intros i d Hd. unfold masked in Hd.
  rewrite lookup_zip_with in Hd.
  destruct (mask !! i) as [[|]|] eqn:Hm; simplify_eq /=.
  - destruct (X !! i) as [x|] eqn:Hx; simplify_eq /=.
    apply finite_tensor_of. by apply (Hfin i).
  - destruct (X !! i) as [x|] eqn:Hx; simplify_eq /=. apply finite_zero_row.
Qed.

Lemma ex_coords_finite : finite_row ex_coords.
Proof. repeat split; eexists; reflexivity. Defined.

Lemma d_manifold_finite_witness :
  exists D, d_manifold [ex_coords] [true] = Ok D /\ Forall finite_row D.
Proof.
  apply (d_manifold_finite [ex_coords] [true]).
  - reflexivity.
  - intros [|i] x Hm Hx; simplify_eq /=. exact ex_coords_finite.
Defined.

(** X7, over exact arithmetic: the tensor [d_manifold] returns at a
    selected voxel has the leading principal minors X1, X1*X2 and X1*X2*X3
    (its determinant), so the three coordinates X1, X2, X3 are the pivots
    of the tensor. *)
Theorem d_manifold_minors (X : list row) (mask : list bool) (i : nat) (x : row) :
  length mask = length X ->
  mask !! i = Some true ->
  X !! i = Some x ->
  finite_row x ->
  exists D d,
    d_manifold X mask = Ok D /\ D !! i = Some d /\
    minor1 d = r0 x /\
    minor2 d = nmul (r0 x) (r1 x) /\
    minor3 d = nmul (nmul (r0 x) (r1 x)) (r2 x).
Proof.
  intros Hlen Hm Hx Hf.
  exists (masked tensor_of mask X), (tensor_of x).
  split; [by apply d_manifold_masked_plain|].
  split; [by apply masked_lookup_true|].
  destruct x as [x1 x2 x3 x4 x5 x6]. num_cases.
  unfold minor1, minor2, minor3, tensor_of, nadd, nsub, nmul, nsq.
  cbn [r0 r1 r2 r3 r4 r5].
  repeat split; try reflexivity; apply (f_equal Some); cbn [Qcpower]; ring.
Qed.

Lemma d_manifold_minors_witness :
  exists D d,
    d_manifold [ex_coords] [true] = Ok D /\ D !! 0%nat = Some d /\
    minor1 d = r0 ex_coords /\
    minor2 d = nmul (r0 ex_coords) (r1 ex_coords) /\
    minor3 d = nmul (nmul (r0 ex_coords) (r1 ex_coords)) (r2 ex_coords).
Proof.
  apply (d_manifold_minors [ex_coords] [true] 0 ex_coords);
    [reflexivity | reflexivity | reflexivity | exact ex_coords_finite].
Defined.

Lemma iwasawa_pivots (d : row) :
  finite_row d -> num_nonzero (minor1 d) -> num_nonzero (minor2 d) ->
  r0 (iwasawa d) = minor1 d /\
  r1 (iwasawa d) = ndiv (minor2 d) (minor1 d) /\
  r2 (iwasawa d) = ndiv (minor3 d) (minor2 d).
Proof.
  destruct d as [dxx dxy dyy dxz dyz dzz].
  unfold minor1, minor2, minor3, iwasawa. cbn [r0 r1 r2 r3 r4 r5].
  intros Hf (a & Ea & Na) (m & Em & Nm). num_cases.
  unfold nsub, nmul, nadd, ndiv, nsq in *. simplify_eq /=.
  rewrite !(decide_False (P := a = Q2Qc 0)) by done. cbn.
  assert (N2 : x2 - a * (x3 / a * (x3 / a * 1)) <> Q2Qc 0).
  { intros Heq. apply Nm.
    replace (a * x2 - x3 * (x3 * 1)) with (a * (x2 - a * (x3 / a * (x3 / a * 1))))
      by (field; done).
    rewrite Heq. ring. }
  rewrite !decide_False by done. cbn.
  repeat split; apply (f_equal Some); field; repeat split; try assumption;
    intros Heq; apply Nm; rewrite <- Heq; ring.
Qed.

(** X8, over exact arithmetic: conversely, on a finite tensor whose first
    two leading principal minors m1 = Dxx and m2 = Dxx*Dyy - Dxy^2 are not
    zero, [x_manifold] returns X1 = m1, X2 = m2/m1 and X3 = det/m2 at a
    selected voxel. *)
Theorem x_manifold_pivots (D : list row) (mask : list bool) (i : nat) (d : row) :
  length mask = length D ->
  mask !! i = Some true ->
  D !! i = Some d ->
  finite_row d ->
  num_nonzero (minor1 d) ->
  num_nonzero (minor2 d) ->
  exists X x,
    x_manifold D mask = Ok X /\ X !! i = Some x /\
    r0 x = minor1 d /\
    r1 x = ndiv (minor2 d) (minor1 d) /\
    r2 x = ndiv (minor3 d) (minor2 d).
Proof.
  intros Hlen Hm Hd Hf H1 H2.
  exists (masked iwasawa mask D), (iwasawa d).
  split; [by apply x_manifold_masked|].
  split; [by apply masked_lookup_true|].
  by apply iwasawa_pivots.
Qed.

Lemma ex_tensor_finite : finite_row ex_tensor.
Proof. repeat split; eexists; reflexivity. Defined.

Lemma x_manifold_pivots_witness :
  exists X x,
    x_manifold [ex_tensor] [true] = Ok X /\ X !! 0%nat = Some x /\
    r0 x = minor1 ex_tensor /\
    r1 x = ndiv (minor2 ex_tensor) (minor1 ex_tensor) /\
    r2 x = ndiv (minor3 ex_tensor) (minor2 ex_tensor).
Proof.
  apply (x_manifold_pivots [ex_tensor] [true] 0 ex_tensor).
  - reflexivity.
  - reflexivity.
  - reflexivity.
  - exact ex_tensor_finite.
  - eexists. split; [reflexivity | discriminate].
  - eexists. split; [vm_compute; reflexivity | discriminate].
Defined.

(** X9: a diagonal tensor diag(a, b, c) with a and b not zero has the
    coordinates X1 = a, X2 = b, X3 = c and X4 = X5 = X6 = 0. *)
Theorem x_manifold_diagonal (D : list row) (mask : list bool) (i : nat) (a b c : Qc) :
  length mask = length D ->
  mask !! i = Some true ->
  D !! i = Some (diag_row a b c) ->
  a <> 0 ->
  b <> 0 ->
  exists X, x_manifold D mask = Ok X /\
    X !! i = Some (Row (Some a) (Some b) (Some c) (Some 0) (Some 0) (Some 0)).
Proof.
  intros HD Hm Hd Ha Hb. exists (masked iwasawa mask D).
  split; [by apply x_manifold_masked|].
  rewrite (masked_lookup_true _ _ _ _ _ Hm Hd). f_equal.
  unfold iwasawa, diag_row, ndiv, nsub, nmul, nsq. cbn [r0 r1 r2 r3 r4 r5].
  rewrite !(decide_False (P := a = 0)) by done. cbn.
  assert (Hb' : b - a * (0 / a * (0 / a * 1)) = b) by (field; done).
  rewrite !Hb'. rewrite !(decide_False (P := b = Q2Qc 0)) by done. cbn.
  f_equal; apply (f_equal Some); field; done.
Qed.

Lemma x_manifold_diagonal_witness :
  exists X, x_manifold [diag_row (rat 3 1) (rat 2 1) (rat 1 1)] [true] = Ok X /\
    X !! 0%nat = Some (Row (Some (rat 3 1)) (Some (rat 2 1)) (Some (rat 1 1))
                           (Some 0) (Some 0) (Some 0)).
Proof.
  apply (x_manifold_diagonal [diag_row (rat 3 1) (rat 2 1) (rat 1 1)] [true] 0
           (rat 3 1) (rat 2 1) (rat 1 1)).
  - reflexivity.
  - reflexivity.
  - reflexivity.
  - discriminate.
  - discriminate.
Defined.

Lemma iwasawa_scale (c : Qc) (d : row) :
  c <> 0 -> finite_row d -> num_nonzero (r0 d) -> num_nonzero (r1 (iwasawa d)) ->
  iwasawa (scale_row c d)
  = Row (nmul (Some c) (r0 (iwasawa d))) (nmul (Some c) (r1 (iwasawa d)))
        (nmul (Some c) (r2 (iwasawa d)))
        (r3 (iwasawa d)) (r4 (iwasawa d)) (r5 (iwasawa d)).
Proof.
  destruct d as [dxx dxy dyy dxz dyz dzz].
  unfold scale_row, iwasawa. cbn [r0 r1 r2 r3 r4 r5].
  intros Hc Hf (a & Ea & Na) (p & Ep & Np). num_cases.
  unfold nsub, nmul, nadd, ndiv, nsq in *. simplify_eq /=.
  assert (Hca : c * a <> Q2Qc 0).
  { intros Heq. apply Qcmult_integral in Heq. by destruct Heq. }
  rewrite !(decide_False (P := a = Q2Qc 0)) in * by done.
  rewrite !(decide_False (P := c * a = Q2Qc 0)) by done.
  cbn in *. simplify_eq.
  set (p := x2 - a * (x3 / a * (x3 / a * 1))) in *.
  assert (Hp : c * x2 - c * a * (c * x3 / (c * a) * (c * x3 / (c * a) * 1)) = c * p)
    by (subst p; field; done).
  rewrite !Hp.
  assert (Hcp : c * p <> Q2Qc 0).
  { intros Heq. apply Qcmult_integral in Heq. by destruct Heq. }
  rewrite !(decide_False (P := p = Q2Qc 0)) by done.
  rewrite !(decide_False (P := c * p = Q2Qc 0)) by done.
  cbn. f_equal; apply (f_equal Some); field; done.
Qed.

(** X10, over exact arithmetic: multiplying the tensor array by a scalar c
    that is not zero multiplies X1, X2 and X3 by c and leaves X4, X5 and X6
    as they are, at every selected voxel with a finite tensor and pivots
    X1, X2 not zero. *)
Theorem x_manifold_scale (D : list row) (mask : list bool) (c : Qc) (i : nat) (d : row) :
  length mask = length D ->
  mask !! i = Some true ->
  D !! i = Some d ->
  c <> 0 ->
  finite_row d ->
  num_nonzero (r0 d) ->
  num_nonzero (r1 (iwasawa d)) ->
  exists X X' x,
    x_manifold D mask = Ok X /\
    x_manifold (scale_row c <$> D) mask = Ok X' /\
    X !! i = Some x /\
    X' !! i = Some (Row (nmul (Some c) (r0 x)) (nmul (Some c) (r1 x))
                        (nmul (Some c) (r2 x)) (r3 x) (r4 x) (r5 x)).
Proof.
  intros Hlen Hm Hd Hc Hf H1 H2.
  exists (masked iwasawa mask D), (masked iwasawa mask (scale_row c <$> D)), (iwasawa d).
  split; [by apply x_manifold_masked|].
  split; [apply x_manifold_masked; by rewrite length_fmap|].
  split; [by apply masked_lookup_true|].
  rewrite (masked_lookup_true _ _ _ i (scale_row c d)); [|done|].
  - f_equal. by apply iwasawa_scale.
  - by rewrite list_lookup_fmap, Hd.
Qed.

Lemma x_manifold_scale_witness :
  exists X X' x,
    x_manifold [ex_tensor] [true] = Ok X /\
    x_manifold (scale_row (rat 2 1) <$> [ex_tensor]) [true] = Ok X' /\
    X !! 0%nat = Some x /\
    X' !! 0%nat = Some (Row (nmul (Some (rat 2 1)) (r0 x)) (nmul (Some (rat 2 1)) (r1 x))
                            (nmul (Some (rat 2 1)) (r2 x)) (r3 x) (r4 x) (r5 x)).
Proof.
  apply (x_manifold_scale [ex_tensor] [true] (rat 2 1) 0 ex_tensor).
  - reflexivity.
  - reflexivity.
  - reflexivity.
  - discriminate.
  - exact ex_tensor_finite.
  - eexists. split; [reflexivity | discriminate].
  - eexists. split; [vm_compute; reflexivity | discriminate].
Defined.

(** X11, over exact arithmetic: on positive-definite tensors [x_manifold]
    loses nothing: two tensor arrays that are positive definite at a
    selected voxel and get the same coordinates there hold the same tensor
    there. *)
Theorem x_manifold_injective (A B XA XB : list row) (mask : list bool) (i : nat) (a b : row) :
  x_manifold A mask = Ok XA ->
  x_manifold B mask = Ok XB ->
  mask !! i = Some true ->
  A !! i = Some a ->
  B !! i = Some b ->
  pos_def a ->
  pos_def b ->
  XA !! i = XB !! i ->
  a = b.
Proof.
  intros HA HB Hm Ha Hb Pa Pb Heq.
  apply x_manifold_inv in HA as [HlA ->]. apply x_manifold_inv in HB as [HlB ->].
  rewrite (masked_lookup_true _ _ _ _ _ Hm Ha) in Heq.
  rewrite (masked_lookup_true _ _ _ _ _ Hm Hb) in Heq.
  assert (Hi : iwasawa a = iwasawa b) by congruence.
  rewrite <- (pos_def_round_trip a Pa), <- (pos_def_round_trip b Pb). by rewrite Hi.
Qed.

Lemma x_manifold_injective_witness : ex_tensor = ex_tensor.
Proof.
  apply (x_manifold_injective [ex_tensor] [ex_tensor] [ex_coords] [ex_coords] [true] 0
           ex_tensor ex_tensor).
  - apply (bool_decide_unpack _). vm_compute. exact I.
  - apply (bool_decide_unpack _). vm_compute. exact I.
  - reflexivity.
  - reflexivity.
  - reflexivity.
  - exact ex_tensor_pos_def.
  - exact ex_tensor_pos_def.
  - reflexivity.
Defined.

(** ** Difference operators *)

(** X12: on axes 0 and 1 [backward_diff] returns an array of the shape of
    its input with grad[0] = 0 and grad[i] = (field[i] - field[i-1]) /
    vox_size for i >= 1; the line [1, 2, 4, 7] with voxel size 1 gives
    [0, 1, 2, 3]. *)
Theorem backward_diff_first_axes (Xi : ndarray3) (ax : axis) (h : Qc) :
  ax <> AX2 ->
  (0 < extent ax (shape Xi))%nat ->
  h <> 0 ->
  finite3 Xi ->
  (exists G,
      backward_diff Xi (axis_dim ax) h = Ok G /\
      shape G = shape Xi /\
      forall i j k, in_shape Xi i j k ->
        (forall c, coord ax i j k = S c ->
           elem G i j k
           = ndiv (nsub (elem Xi i j k) (elem_along ax Xi c i j k)) (Some h)) /\
        (coord ax i j k = 0%nat -> elem G i j k = nzero))
  /\ res_list3 (backward_diff ex_line 0 1)
     = Ok [[[int 0]]; [[int 1]]; [[int 2]]; [[int 3]]].
Proof.
  intros Hax Hn Hh Hfin. split.
  - by apply backward_diff_normalised.
  - apply (bool_decide_unpack _). vm_compute. exact I.
Qed.

Lemma backward_diff_first_axes_witness :
  (exists G,
      backward_diff ex_line (axis_dim AX0) 1 = Ok G /\
      shape G = shape ex_line /\
      forall i j k, in_shape ex_line i j k ->
        (forall c, coord AX0 i j k = S c ->
           elem G i j k
           = ndiv (nsub (elem ex_line i j k) (elem_along AX0 ex_line c i j k)) (Some 1)) /\
        (coord AX0 i j k = 0%nat -> elem G i j k = nzero))
  /\ res_list3 (backward_diff ex_line 0 1)
     = Ok [[[int 0]]; [[int 1]]; [[int 2]]; [[int 3]]].
Proof.
  apply (backward_diff_first_axes ex_line AX0 1).
  - discriminate.
  - simpl. lia.
  - discriminate.
  - exact ex_line_finite.
Defined.

(** X13: on axis 2 [backward_diff] divides only the shifted term: it
    returns an array of the shape of its input with
    out[k] = field[k] - field[k-1] / vox_size for k >= 1 and
    out[0] = field[0] - field[0] / vox_size. *)
Theorem backward_diff_third_axis (Xi : ndarray3) (h : Qc) :
  (0 < extent AX2 (shape Xi))%nat ->
  exists G,
    backward_diff Xi 2 h = Ok G /\
    shape G = shape Xi /\
    forall i j k, in_shape Xi i j k ->
      (forall c, k = S c ->
         elem G i j k = nsub (elem Xi i j k) (ndiv (elem Xi i j c) (Some h))) /\
      (k = 0%nat ->
         elem G i j k = nsub (elem Xi i j k) (ndiv (elem Xi i j k) (Some h))).
Proof. apply backward_diff_axis2. Qed.

Lemma backward_diff_third_axis_witness :
  exists G,
    backward_diff ex_pair 2 (rat 2 1) = Ok G /\
    shape G = shape ex_pair /\
    forall i j k, in_shape ex_pair i j k ->
      (forall c, k = S c ->
         elem G i j k = nsub (elem ex_pair i j k) (ndiv (elem ex_pair i j c) (Some (rat 2 1)))) /\
      (k = 0%nat ->
         elem G i j k = nsub (elem ex_pair i j k) (ndiv (elem ex_pair i j k) (Some (rat 2 1)))).
Proof. apply (backward_diff_third_axis ex_pair (rat 2 1)). simpl. lia. Defined.

(** X14: on an axis that holds no sample both operators raise IndexError:
    the index array is [-1] (forward) or [0] (backward), out of bounds for
    an axis of size 0. *)
Theorem diff_on_empty_axis (Xi : ndarray3) (ax : axis) (h : Qc) :
  extent ax (shape Xi) = 0%nat ->
  forward_diff Xi (axis_dim ax) h = Err IndexError /\
  backward_diff Xi (axis_dim ax) h = Err IndexError.
Proof. apply diff_empty_axis. Qed.

Lemma diff_on_empty_axis_witness :
  forward_diff (of_list3 []) (axis_dim AX0) 1 = Err IndexError /\
  backward_diff (of_list3 []) (axis_dim AX0) 1 = Err IndexError.
Proof. apply (diff_on_empty_axis (of_list3 []) AX0 1). reflexivity. Defined.

(** X15: on a constant field the forward difference is zero everywhere on
    every axis, and the backward difference is zero everywhere on axes 0
    and 1. *)
Theorem diff_const_zero (Xi : ndarray3) (ax bx : axis) (h c : Qc) :
  (0 < extent ax (shape Xi))%nat ->
  (0 < extent bx (shape Xi))%nat ->
  bx <> AX2 ->
  h <> 0 ->
  (forall i j k, in_shape Xi i j k -> elem Xi i j k = Some c) ->
  (exists F,
      forward_diff Xi (axis_dim ax) h = Ok F /\ shape F = shape Xi /\
      forall i j k, in_shape Xi i j k -> elem F i j k = nzero) /\
  (exists B,
      backward_diff Xi (axis_dim bx) h = Ok B /\ shape B = shape Xi /\
      forall i j k, in_shape Xi i j k -> elem B i j k = nzero).
Proof.
  intros Ha Hb Hbx Hh Hc. split.
  - by apply (forward_diff_const Xi ax h c).
  - by apply (backward_diff_const Xi bx h c).
Qed.

Lemma ex_const_values :
  forall i j k, in_shape ex_const i j k -> elem ex_const i j k = Some (Qc_of_Z 2).
Proof.
  intros i j k (Hi & Hj & Hk). simpl in *.
  assert (i = 0%nat) as -> by lia. assert (j = 0%nat) as -> by lia.
  destruct k as [|[|k]]; [reflexivity | reflexivity | lia].
Defined.

Lemma diff_const_zero_witness :
  (exists F,
      forward_diff ex_const (axis_dim AX2) (rat 2 1) = Ok F /\ shape F = shape ex_const /\
      forall i j k, in_shape ex_const i j k -> elem F i j k = nzero) /\
  (exists B,
      backward_diff ex_const (axis_dim AX0) (rat 2 1) = Ok B /\ shape B = shape ex_const /\
      forall i j k, in_shape ex_const i j k -> elem B i j k = nzero).
Proof.
  apply (diff_const_zero ex_const AX2 AX0 (rat 2 1) (Qc_of_Z 2)).
  - simpl. lia.
  - simpl. lia.
  - discriminate.
  - discriminate.
  - exact ex_const_values.
Defined.

Lemma bwd_idx_in (n c : nat) : (c < n)%nat -> (nth c (bwd_idx n) 0 < n)%nat.
Proof.
  intros Hc. destruct c as [|c].
  - rewrite bwd_idx_first. lia.
  - rewrite bwd_idx_prev by lia. lia.
Qed.

Lemma elem_along_pointwise (ax : axis) (s0 : nat * nat * nat) (u : nat -> nat -> nat -> num)
    (s i j k : nat) :
  elem_along ax (Arr3 s0 u) s i j k
  = match ax with AX0 => u s j k | AX1 => u i s k | AX2 => u i j s end.
Proof. by destruct ax. Qed.

(** X16, over exact arithmetic: the backward difference is linear on all
    three axes, the third included:
    backward(a*f + b*g) = a*backward(f) + b*backward(g). *)
Theorem backward_diff_linear (f g : ndarray3) (a b : Qc) (ax : axis) (h : Qc) :
  shape f = shape g ->
  (0 < extent ax (shape f))%nat ->
  h <> 0 ->
  finite3 f ->
  finite3 g ->
  exists fg F G FG rhs,
    lincomb a b f g = Ok fg /\
    backward_diff fg (axis_dim ax) h = Ok FG /\
    backward_diff f (axis_dim ax) h = Ok F /\
    backward_diff g (axis_dim ax) h = Ok G /\
    lincomb a b F G = Ok rhs /\
    arr_eq FG rhs.
Proof.
  intros Hs Hn Hh Hf Hg.
  eexists; eexists; eexists; eexists; eexists.
  split; [by apply lincomb_ok|].
  split; [by apply backward_diff_ok|].
  split; [by apply backward_diff_ok|].
  split; [apply backward_diff_ok; by rewrite <- Hs|].
  split; [by apply lincomb_ok|].
  split; [done|].
  intros i j k Hin. cbn [shape elem] in *. unfold bwd_elem. cbn [shape elem].
  rewrite <- Hs.
  pose proof (coord_in_shape ax _ _ _ _ Hin) as Hlt. cbn [shape] in Hlt.
  apply bwd_idx_in in Hlt.
  set (s := nth (coord ax i j k) (bwd_idx (extent ax (shape f))) 0%nat) in *.
  assert (Hing : in_shape g i j k) by (unfold in_shape in *; by rewrite <- Hs).
  destruct (Hf i j k Hin) as [f0 Ef0]. destruct (Hg i j k Hing) as [g0 Eg0].
  destruct (finite_along ax f s i j k Hf Hin Hlt) as [f1 Ef1].
  destruct (finite_along ax g s i j k Hg Hing) as [g1 Eg1]; [by rewrite <- Hs|].
  assert (Efg : elem_along ax
                  (Arr3 (shape f)
                     (fun i j k => nadd (nmul (Some a) (elem f i j k))
                                        (nmul (Some b) (elem g i j k)))) s i j k
                = nadd (nmul (Some a) (elem_along ax f s i j k))
                       (nmul (Some b) (elem_along ax g s i j k)))
    by (by destruct ax).
  rewrite Efg, Ef0, Eg0, Ef1, Eg1.
  destruct ax; unfold ndiv, nsub, nadd, nmul; rewrite !decide_False by done;
    apply (f_equal Some); field; done.
Qed.

Lemma ex_pair_finite : finite3 ex_pair.
Proof.
  intros i j k (Hi & Hj & Hk). simpl in *.
  assert (i = 0%nat) as -> by lia. assert (j = 0%nat) as -> by lia.
  destruct k as [|[|k]]; try (eexists; reflexivity). lia.
Defined.

Lemma ex_const_finite : finite3 ex_const.
Proof.
  intros i j k (Hi & Hj & Hk). simpl in *.
  assert (i = 0%nat) as -> by lia. assert (j = 0%nat) as -> by lia.
  destruct k as [|[|k]]; try (eexists; reflexivity). lia.
Defined.

Lemma backward_diff_linear_witness :
  exists fg F G FG rhs,
    lincomb (rat 2 1) (rat 3 1) ex_pair ex_const = Ok fg /\
    backward_diff fg (axis_dim AX2) (rat 2 1) = Ok FG /\
    backward_diff ex_pair (axis_dim AX2) (rat 2 1) = Ok F /\
    backward_diff ex_const (axis_dim AX2) (rat 2 1) = Ok G /\
    lincomb (rat 2 1) (rat 3 1) F G = Ok rhs /\
    arr_eq FG rhs.
Proof.
  apply (backward_diff_linear ex_pair ex_const (rat 2 1) (rat 3 1) AX2 (rat 2 1)).
  - reflexivity.
  - simpl. lia.
  - discriminate.
  - exact ex_pair_finite.
  - exact ex_const_finite.
Defined.

(** X17: on axes 0 and 1 the backward difference is the forward difference
    moved by one sample: backward[i] = forward[i-1] for every i >= 1. *)
Theorem backward_is_shifted_forward (Xi : ndarray3) (ax : axis) (h : Qc) :
  ax <> AX2 ->
  (0 < extent ax (shape Xi))%nat ->
  exists F B,
    forward_diff Xi (axis_dim ax) h = Ok F /\
    backward_diff Xi (axis_dim ax) h = Ok B /\
    forall i j k c, in_shape Xi i j k -> coord ax i j k = S c ->
      elem B i j k = elem_along ax F c i j k.
Proof.
  intros Hax Hn. eexists; eexists.
  split; [by apply forward_diff_ok|].
  split; [by apply backward_diff_ok|].
  intros i j k c Hin Hc.
  pose proof (coord_in_shape ax _ _ _ _ Hin) as Hlt.
  rewrite elem_along_pointwise. cbn [elem]. unfold bwd_elem, fwd_elem.
  destruct ax; [| |done]; cbn [coord elem_along] in *; subst;
    rewrite bwd_idx_prev, fwd_idx_next by lia; reflexivity.
Qed.

Lemma backward_is_shifted_forward_witness :
  exists F B,
    forward_diff ex_line (axis_dim AX0) 1 = Ok F /\
    backward_diff ex_line (axis_dim AX0) 1 = Ok B /\
    forall i j k c, in_shape ex_line i j k -> coord AX0 i j k = S c ->
      elem B i j k = elem_along AX0 F c i j k.
Proof.
  apply (backward_is_shifted_forward ex_line AX0 1).
  - discriminate.
  - simpl. lia.
Defined.

(** X18: a voxel size of zero is not rejected: on an axis with at least one
    sample both operators return an array of the shape of their input, and
    none of its elements has a finite value. *)
Theorem diff_zero_voxel_size (Xi : ndarray3) (ax : axis) :
  (0 < extent ax (shape Xi))%nat ->
  exists F B,
    forward_diff Xi (axis_dim ax) 0 = Ok F /\
    backward_diff Xi (axis_dim ax) 0 = Ok B /\
    shape F = shape Xi /\ shape B = shape Xi /\
    forall i j k, elem F i j k = None /\ elem B i j k = None.
Proof.
  intros Hn. eexists; eexists.
  split; [by apply forward_diff_ok|].
  split; [by apply backward_diff_ok|].
  split; [done|]. split; [done|].
  intros i j k. cbn [elem]. unfold fwd_elem, bwd_elem.
  destruct ax; by rewrite !ndiv_zero, ?nsub_none.
Qed.

Lemma diff_zero_voxel_size_witness :
  exists F B,
    forward_diff ex_line (axis_dim AX0) 0 = Ok F /\
    backward_diff ex_line (axis_dim AX0) 0 = Ok B /\
    shape F = shape ex_line /\ shape B = shape ex_line /\
    forall i j k, elem F i j k = None /\ elem B i j k = None.
Proof. apply (diff_zero_voxel_size ex_line AX0). simpl. lia. Defined.

(** X19, over exact arithmetic: on axes 0 and 1 the backward difference of
    the forward difference is the three-point second difference: at every
    interior sample i (1 <= i <= N-2) it is
    (field[i+1] - 2*field[i] + field[i-1]) / vox_size^2. *)
Theorem backward_of_forward (Xi : ndarray3) (ax : axis) (h : Qc) :
  ax <> AX2 ->
  (0 < extent ax (shape Xi))%nat ->
  h <> 0 ->
  finite3 Xi ->
  exists F G,
    forward_diff Xi (axis_dim ax) h = Ok F /\
    backward_diff F (axis_dim ax) h = Ok G /\
    shape G = shape Xi /\
    forall i j k c, in_shape Xi i j k -> coord ax i j k = S c ->
      (S (S c) < extent ax (shape Xi))%nat ->
      elem G i j k
      = ndiv (nadd (nsub (elem_along ax Xi (S (S c)) i j k)
                         (nmul (int 2) (elem Xi i j k)))
                   (elem_along ax Xi c i j k))
             (Some (h * h)).
Proof.
  intros Hax Hn Hh Hfin. eexists; eexists.
  split; [by apply forward_diff_ok|].
  split; [by apply (backward_diff_ok (Arr3 (shape Xi) (fwd_elem ax Xi h)))|].
  split; [done|].
  intros i j k c Hin Hc Hcc.
  destruct (Hfin i j k Hin) as [f1 E1].
  destruct (finite_along ax Xi (S (S c)) i j k Hfin Hin Hcc) as [f2 E2].
  destruct (finite_along ax Xi c i j k Hfin Hin) as [f0 E0]; [lia|].
  rewrite E1, E2, E0.
  assert (Hhh : h * h <> Q2Qc 0).
  { intros Heq. apply Qcmult_integral in Heq. by destruct Heq. }
  assert (H2 : Qc_of_Z 2 = 1 + 1) by (apply (bool_decide_unpack _); vm_compute; exact I).
  cbn [elem shape]. unfold bwd_elem. cbn [shape].
  rewrite elem_along_pointwise. cbn [elem]. unfold fwd_elem.
  destruct ax; [| |done]; cbn [coord elem_along] in *; subst;
    rewrite bwd_idx_prev, !fwd_idx_next by lia;
    rewrite E1, E2, E0;
    unfold int, ndiv, nsub, nadd, nmul; rewrite !decide_False by done;
    rewrite H2; apply (f_equal Some); field; done.
Qed.

Lemma backward_of_forward_witness :
  exists F G,
    forward_diff ex_line (axis_dim AX0) 1 = Ok F /\
    backward_diff F (axis_dim AX0) 1 = Ok G /\
    shape G = shape ex_line /\
    forall i j k c, in_shape ex_line i j k -> coord AX0 i j k = S c ->
      (S (S c) < extent AX0 (shape ex_line))%nat ->
      elem G i j k
      = ndiv (nadd (nsub (elem_along AX0 ex_line (S (S c)) i j k)
                         (nmul (int 2) (elem ex_line i j k)))
                   (elem_along AX0 ex_line c i j k))
             (Some (1 * 1)).
Proof.
  apply (backward_of_forward ex_line AX0 1).
  - discriminate.
  - simpl. lia.
  - discriminate.
  - exact ex_line_finite.
Defined.
